(** * bintree::TNode — ownership-aware binary tree nodes (src/tree.h)

    The header defines one class template, [TNode<T>], whose objects live on
    the free store and are only ever reached through [std::shared_ptr]
    (strong, owning: the [left] and [right] members and every handle a caller
    holds) and [std::weak_ptr] (the [parent] member).

    The embedding makes the free store explicit.  An address is a natural
    number; the store is a list of cells indexed by address.  A cell is
    either a live node or the tombstone of a node that has been destroyed:
    the control block of a [shared_ptr] outlives the object while weak
    references to it remain, and an address is never handed out twice.
    A strong pointer is an [option loc] ([None] is [nullptr]); so is a weak
    pointer, and [lock] resolves it against the store. *)

From Stdlib Require Import ZArith Lia.
From stdpp Require Import base option list.

(* [naive_solver] clears hypotheses that its own steps have consumed. *)
Set Warnings "-clear-no-such-hyp".

Abbreviation loc := nat (only parsing).

Section Node.
Context {T : Type}.

(** The data members of [TNode<T>], in declaration order (tree.h:113-123). *)
Record TNode := mkTNode {
  value  : T;
  left   : option loc;  (* TNodePtr left = nullptr                *)
  right  : option loc;  (* TNodePtr right = nullptr               *)
  parent : option loc   (* std::weak_ptr<TNode<T>> parent (empty) *)
}.

Inductive cell :=
| Live (nd : TNode)
| Freed.

(** The object a strong pointer designates, if it is alive. *)
Definition node_at (h : list cell) (p : loc) : option TNode :=
  match h !! p with
  | Some (Live nd) => Some nd
  | _ => None
  end.

Definition is_live (h : list cell) (p : loc) : bool :=
  match node_at h p with Some _ => true | None => false end.

(** [std::weak_ptr::lock]: a strong pointer to the target when the target
    is still alive, the empty pointer otherwise. *)
Definition lock (h : list cell) (w : option loc) : option loc :=
  match w with
  | Some p => if is_live h p then Some p else None
  | None => None
  end.

(** [explicit operator bool] of [std::shared_ptr]. *)
Definition ptr_bool (p : option loc) : bool :=
  match p with Some _ => true | None => false end.

(** ** Accessors (tree.h:14-60)

    A method is called through a pointer to its receiver.  On a receiver
    that is not alive the pointer-valued accessors yield [None] and the
    boolean ones [false]. *)

Definition hasLeft (h : list cell) (this : loc) : bool :=
  match node_at h this with
  | Some nd => ptr_bool (left nd)
  | None => false
  end.

Definition hasRight (h : list cell) (this : loc) : bool :=
  match node_at h this with
  | Some nd => ptr_bool (right nd)
  | None => false
  end.

Definition getValue (h : list cell) (this : loc) : option T :=
  value <$> node_at h this.

Definition getLeft (h : list cell) (this : loc) : option loc :=
  match node_at h this with
  | Some nd => left nd
  | None => None
  end.

Definition getRight (h : list cell) (this : loc) : option loc :=
  match node_at h this with
  | Some nd => right nd
  | None => None
  end.

Definition getParent (h : list cell) (this : loc) : option loc :=
  match node_at h this with
  | Some nd => lock h (parent nd)
  | None => None
  end.

(** [hasParent] (tree.h:22-24) is written [bool(parent)], as [hasLeft] and
    [hasRight] are, but [parent] is a [std::weak_ptr], which declares no
    conversion to [bool].  The member function therefore has no
    instantiation: a call of it is rejected by the compiler, and there is
    no behaviour of the code to embed.  [hasParent_spec] is the function of
    the specification (4.1) instead, in the specification's words: true
    exactly when [getParent] is not absent. *)
Definition hasParent_spec (h : list cell) (this : loc) : bool :=
  ptr_bool (getParent h this).

(** ** Writing a member of a live node *)

Definition on_live (f : TNode → TNode) (c : cell) : cell :=
  match c with
  | Live nd => Live (f nd)
  | Freed => Freed
  end.

Definition update (p : loc) (f : TNode → TNode) (h : list cell) : list cell :=
  alter (on_live f) p h.

Definition with_parent (w : option loc) (nd : TNode) : TNode :=
  mkTNode (value nd) (left nd) (right nd) w.

Definition with_left (l : option loc) (nd : TNode) : TNode :=
  mkTNode (value nd) l (right nd) (parent nd).

Definition with_right (r : option loc) (nd : TNode) : TNode :=
  mkTNode (value nd) (left nd) r (parent nd).

(** [setParent] (tree.h:148-151): [if (node) node->parent = parent;] *)
Definition setParent (node parent : option loc) (h : list cell) : list cell :=
  match node with
  | Some n => update n (with_parent parent) h
  | None => h
  end.

(** ** Factories (tree.h:62-75)

    [std::make_shared<TSuccessorNode>(...)] constructs the object at a new
    address; [TSuccessorNode] adds no member to [TNode], so the cell holds
    a [TNode] whichever constructor ran. *)

Definition make_shared (nd : TNode) (h : list cell) : loc * list cell :=
  (length h, h ++ [Live nd]).

Definition createLeaf (v : T) (h : list cell) : loc * list cell :=
  make_shared (mkTNode v None None None) h.

Definition fork (v : T) (l r : option loc) (h : list cell) : loc * list cell :=
  let '(ptr, h1) := make_shared (mkTNode v l r None) h in
  let h2 := setParent (getLeft h1 ptr) (Some ptr) h1 in
  let h3 := setParent (getRight h2 ptr) (Some ptr) h2 in
  (ptr, h3).

(** ** Mutators (tree.h:77-110)

    [replaceLeft] receives [l] by value, names itself through
    [shared_from_this()], and ends with [std::swap(l, left); return l;]:
    the slot takes the argument and the result is what the slot held. *)

Definition replaceLeft (this : loc) (l : option loc) (h : list cell)
  : option loc * list cell :=
  let h1 := setParent l (Some this) h in
  let h2 := setParent (getLeft h1 this) None h1 in
  let old := getLeft h2 this in
  (old, update this (with_left l) h2).

Definition replaceRight (this : loc) (r : option loc) (h : list cell)
  : option loc * list cell :=
  let h1 := setParent r (Some this) h in
  let h2 := setParent (getRight h1 this) None h1 in
  let old := getRight h2 this in
  (old, update this (with_right r) h2).

Definition replaceRightWithLeaf (this : loc) (v : T) (h : list cell)
  : option loc * list cell :=
  let '(lf, h1) := createLeaf v h in
  replaceRight this (Some lf) h1.

Definition replaceLeftWithLeaf (this : loc) (v : T) (h : list cell)
  : option loc * list cell :=
  let '(lf, h1) := createLeaf v h in
  replaceLeft this (Some lf) h1.

Definition removeLeft (this : loc) (h : list cell) : option loc * list cell :=
  replaceLeft this None h.

Definition removeRight (this : loc) (h : list cell) : option loc * list cell :=
  replaceRight this None h.

(** ** The replace protocol as the specification words it (4.3)

    (1) if the new child is present, set its back-reference to this node;
    (2) clear the back-reference of the current child of the slot, if any;
    (3) put the new child into the slot and produce the child it held. *)

Definition adopt (this : loc) (x : option loc) (h : list cell) : list cell :=
  match x with
  | Some c => update c (with_parent (Some this)) h
  | None => h
  end.

Definition evict (cur : option loc) (h : list cell) : list cell :=
  match cur with
  | Some c => update c (with_parent None) h
  | None => h
  end.

Definition replaceLeft_spec (this : loc) (x : option loc) (h : list cell)
  : option loc * list cell :=
  let h1 := adopt this x h in
  let h2 := evict (getLeft h1 this) h1 in
  (getLeft h2 this, update this (with_left x) h2).

Definition replaceRight_spec (this : loc) (x : option loc) (h : list cell)
  : option loc * list cell :=
  let h1 := adopt this x h in
  let h2 := evict (getRight h1 this) h1 in
  (getRight h2 this, update this (with_right x) h2).

End Node.

Arguments TNode : clear implicits.
Arguments cell : clear implicits.

(** * Ownership: callers' handles, use counts and destruction

    A node stays alive while some [shared_ptr] names it: a handle held by
    the calling code, or the [left] or [right] member of a live node.  The
    [parent] member is a [weak_ptr] and is not counted. *)

Section Ownership.
Context {T : Type}.

Record State := mkState {
  heap    : list (cell T);
  handles : list loc          (* the shared_ptr values the caller holds *)
}.

(** Strong references to [p] stored in the members of one cell. *)
Definition slot_refs (p : loc) (c : cell T) : nat :=
  match c with
  | Live nd =>
      (if decide (left nd = Some p) then 1 else 0) +
      (if decide (right nd = Some p) then 1 else 0)
  | Freed => 0
  end.

(** Strong links into [p] from the child slots of the nodes of the store. *)
Definition incoming (h : list (cell T)) (p : loc) : nat :=
  sum_list_with (slot_refs p) h.

Definition handle_refs (p : loc) (hs : list loc) : nat :=
  sum_list_with (λ q, if decide (q = p) then 1 else 0) hs.

(** [std::shared_ptr::use_count]. *)
Definition use_count (s : State) (p : loc) : nat :=
  handle_refs p (handles s) + incoming (heap s) p.

(** What happens when a strong reference to [p] has just gone away: if
    none is left the node is destroyed, and the destruction of its members
    (in reverse order of declaration: [parent], [right], [left], [value])
    gives up the references they held, which may destroy the children in
    turn.  [fuel] bounds the depth of the cascade. *)
Fixpoint release (fuel : nat) (p : option loc) (s : State) : State :=
  match fuel, p with
  | S f, Some q =>
      match node_at (heap s) q with
      | Some nd =>
          if decide (use_count s q = 0) then
            let s1 := mkState (<[q := Freed]> (heap s)) (handles s) in
            release f (left nd) (release f (right nd) s1)
          else s
      | None => s
      end
  | _, _ => s
  end.

(** Every destruction consumes a live node, so one more unit of fuel than
    there are cells is always enough (lemma [release_clean] below). *)
Definition reclaim (p : loc) (s : State) : State :=
  release (S (length (heap s))) (Some p) s.

Fixpoint remove_one (p : loc) (hs : list loc) : list loc :=
  match hs with
  | [] => []
  | q :: hs' => if decide (q = p) then hs' else q :: remove_one p hs'
  end.

(** The caller lets go of one handle to [p]. *)
Definition drop (p : loc) (s : State) : State :=
  reclaim p (mkState (heap s) (remove_one p (handles s))).

(** A returned pointer becomes a handle of the caller unless it is null. *)
Definition keep (r : option loc) (hs : list loc) : list loc :=
  match r with
  | Some p => p :: hs
  | None => hs
  end.

Definition held (s : State) (p : loc) : bool := bool_decide (p ∈ handles s).

Definition held_opt (s : State) (x : option loc) : bool :=
  match x with
  | Some p => held s p
  | None => true
  end.

(** ** The public interface as seen by a caller *)

Inductive call :=
| CreateLeaf (v : T)
| Fork (v : T) (l r : option loc)
| ReplaceLeft (n : loc) (x : option loc)
| ReplaceRight (n : loc) (x : option loc)
| ReplaceRightWithLeaf (n : loc) (v : T)
| ReplaceLeftWithLeaf (n : loc) (v : T)
| RemoveLeft (n : loc)
| RemoveRight (n : loc)
| GetLeft (n : loc)
| GetRight (n : loc)
| GetParent (n : loc)
| Drop (p : loc).

(** A caller can only pass and call through handles it holds; [exec] is
    [None] otherwise.  Pointers that come back are kept as handles, and a
    caller that discards one follows the call with [Drop].  The leaf that
    [replace*WithLeaf] passes on is a temporary: it is given up when the
    call returns. *)
Definition exec (c : call) (s : State) : option State :=
  match c with
  | CreateLeaf v =>
      let '(p, h') := createLeaf v (heap s) in
      Some (mkState h' (p :: handles s))
  | Fork v l r =>
      if held_opt s l && held_opt s r then
        let '(p, h') := fork v l r (heap s) in
        Some (mkState h' (p :: handles s))
      else None
  | ReplaceLeft n x =>
      if held s n && held_opt s x then
        let '(old, h') := replaceLeft n x (heap s) in
        Some (mkState h' (keep old (handles s)))
      else None
  | ReplaceRight n x =>
      if held s n && held_opt s x then
        let '(old, h') := replaceRight n x (heap s) in
        Some (mkState h' (keep old (handles s)))
      else None
  | ReplaceRightWithLeaf n v =>
      if held s n then
        let '(old, h') := replaceRightWithLeaf n v (heap s) in
        Some (reclaim (length (heap s)) (mkState h' (keep old (handles s))))
      else None
  | ReplaceLeftWithLeaf n v =>
      if held s n then
        let '(old, h') := replaceLeftWithLeaf n v (heap s) in
        Some (reclaim (length (heap s)) (mkState h' (keep old (handles s))))
      else None
  | RemoveLeft n =>
      if held s n then
        let '(old, h') := removeLeft n (heap s) in
        Some (mkState h' (keep old (handles s)))
      else None
  | RemoveRight n =>
      if held s n then
        let '(old, h') := removeRight n (heap s) in
        Some (mkState h' (keep old (handles s)))
      else None
  | GetLeft n =>
      if held s n then Some (mkState (heap s) (keep (getLeft (heap s) n) (handles s)))
      else None
  | GetRight n =>
      if held s n then Some (mkState (heap s) (keep (getRight (heap s) n) (handles s)))
      else None
  | GetParent n =>
      if held s n then Some (mkState (heap s) (keep (getParent (heap s) n) (handles s)))
      else None
  | Drop p =>
      if held s p then Some (drop p s) else None
  end.

Fixpoint run (cs : list call) (s : State) : option State :=
  match cs with
  | [] => Some s
  | c :: cs' =>
      match exec c s with
      | Some s' => run cs' s'
      | None => None
      end
  end.

Definition init : State := mkState [] [].

(** ** The attachment discipline

    The specification (7) leaves two misuses to the caller; the header
    checks neither.  [attach_ok] is the first of them made
    precise: a node handed over as a new child is held by no child slot
    at the time of the call, and [fork] is not given the same node
    twice. *)

Definition detached (h : list (cell T)) (x : option loc) : bool :=
  match x with
  | Some p => bool_decide (incoming h p = 0)
  | None => true
  end.

Definition distinct (l r : option loc) : bool :=
  match l, r with
  | Some p, Some q => bool_decide (p ≠ q)
  | _, _ => true
  end.

Definition attach_ok (c : call) (s : State) : bool :=
  match c with
  | Fork _ l r => detached (heap s) l && detached (heap s) r && distinct l r
  | ReplaceLeft _ x | ReplaceRight _ x => detached (heap s) x
  | _ => true
  end.

Fixpoint run_ok (cs : list call) (s : State) : option State :=
  match cs with
  | [] => Some s
  | c :: cs' =>
      if attach_ok c s then
        match exec c s with
        | Some s' => run_ok cs' s'
        | None => None
        end
      else None
  end.

End Ownership.

Arguments State : clear implicits.
Arguments call : clear implicits.

(** * Properties of a state *)

Section Properties.
Context {T : Type}.
Implicit Types (s : State T) (h : list (cell T)) (p q n : loc).

(** [n] holds a strong link to [c] in one of its child slots. *)
Definition holds (h : list (cell T)) (n c : loc) : Prop :=
  getLeft h n = Some c ∨ getRight h n = Some c.

(** Some [shared_ptr] names [p]: a handle, or a slot of a live node. *)
Definition referenced s p : Prop :=
  p ∈ handles s ∨ ∃ n, holds (heap s) n p.

(** Strong pointers never dangle. *)
Definition no_dangling s : Prop :=
  (∀ p, p ∈ handles s → is_live (heap s) p = true) ∧
  (∀ n c, holds (heap s) n c → is_live (heap s) c = true).

(** A live node that no strong pointer names. *)
Definition garbage s q : Prop :=
  is_live (heap s) q = true ∧ ¬ referenced s q.

Definition sound s : Prop :=
  no_dangling s ∧ ∀ q, ¬ garbage s q.

Definition live_count (h : list (cell T)) : nat :=
  sum_list_with (λ c, match c with Live _ => 1 | Freed => 0 end) h.

(** Parent and child agree: [P] holds [C] exactly when the back-reference
    of [C] resolves to [P]. *)
Definition link_consistent (h : list (cell T)) : Prop :=
  ∀ P C, holds h P C ↔ getParent h C = Some P.

(** No node is held twice: not by two nodes, not by both slots of one. *)
Definition single_owner (h : list (cell T)) : Prop :=
  ∀ C, incoming h C ≤ 1.

(** The form of the two properties that is preserved call by call: the
    fields of live nodes agree, no node has one child in both slots, and
    a back-reference never names an address not yet allocated. *)
Definition linked (h : list (cell T)) : Prop :=
  (∀ P C ndP ndC,
     node_at h P = Some ndP → node_at h C = Some ndC →
     (left ndP = Some C ∨ right ndP = Some C) ↔ parent ndC = Some P) ∧
  (∀ P ndP c,
     node_at h P = Some ndP → left ndP = Some c → right ndP ≠ Some c) ∧
  (∀ C ndC P,
     node_at h C = Some ndC → parent ndC = Some P → P < length h).

(** No live node holds [x] in a slot. *)
Definition unheld (h : list (cell T)) (x : option loc) : Prop :=
  ∀ p m ndm, x = Some p → node_at h m = Some ndm →
             left ndm ≠ Some p ∧ right ndm ≠ Some p.

(** A back-reference between live nodes is matched by a slot of its
    target, and never names an address not yet allocated. *)
Definition backed (h : list (cell T)) : Prop :=
  (∀ P C ndP ndC,
     node_at h P = Some ndP → node_at h C = Some ndC →
     parent ndC = Some P → left ndP = Some C ∨ right ndP = Some C) ∧
  (∀ C ndC P,
     node_at h C = Some ndC → parent ndC = Some P → P < length h).

(** The calls that are not compositions of other calls. *)
Definition plain (k : call T) : Prop :=
  match k with
  | ReplaceLeftWithLeaf _ _ | ReplaceRightWithLeaf _ _ => False
  | _ => True
  end.

(** The nodes that have no owner outside [p]: [p] itself, and every node
    that is not named by a handle and whose slot owners are all in the set
    already. *)
Inductive doomed (s : State T) (p : loc) : loc → Prop :=
| doomed_root : doomed s p p
| doomed_step q :
    q ∉ handles s →
    (∀ m, holds (heap s) m q → doomed s p m) →
    doomed s p q.

(** Back-references that name [p]: the [parent] members of live nodes. *)
Definition weak_refs (h : list (cell T)) (p : loc) : nat :=
  sum_list_with
    (λ c, match c with
          | Live nd => if decide (parent nd = Some p) then 1 else 0
          | Freed => 0
          end) h.

(** [createLeaf] and [fork] allocate with [std::make_shared], which puts
    the node and its control block into one block of storage.  The block
    is given back only when the node has been destroyed and no [weak_ptr]
    names it any longer; until then the storage is held. *)
Definition storage_held (h : list (cell T)) (p : loc) : bool :=
  is_live h p || bool_decide (0 < weak_refs h p).

End Properties.

(** * Sample stores and call sequences *)

(** [a = createLeaf(1); r = fork(0, a, nullptr); r->replaceLeft(a)] *)
Definition own_child_calls : list (call Z) :=
  [CreateLeaf 1%Z; Fork 0%Z (Some 0) None; ReplaceLeft 1 (Some 0)].

(** [a = createLeaf(1); fork(0, a, nullptr); fork(5, a, nullptr)] *)
Definition shared_leaf_calls : list (call Z) :=
  [CreateLeaf 1%Z; Fork 0%Z (Some 0) None; Fork 5%Z (Some 0) None].

(** A tree built, relinked and pruned within the discipline. *)
Definition tree_calls : list (call Z) :=
  [CreateLeaf 1%Z; CreateLeaf 2%Z; Fork 0%Z (Some 0) (Some 1);
   ReplaceRightWithLeaf 2 3%Z; Drop 1; Drop 1; GetLeft 2; RemoveLeft 2;
   Drop 0; Drop 0].

(** [root = fork(0, a, b)] with the handle to [b] given up: the caller
    holds [root] and [a]. *)
Definition drop_root_calls : list (call Z) :=
  [CreateLeaf 1%Z; CreateLeaf 2%Z; Fork 0%Z (Some 0) (Some 1); Drop 1].

(** A root at address 2 with children 0 and 1, and a detached leaf at 3. *)
Definition sample_store : list (cell Z) :=
  [Live (mkTNode 1%Z None None (Some 2));
   Live (mkTNode 2%Z None None (Some 2));
   Live (mkTNode 0%Z (Some 0) (Some 1) None);
   Live (mkTNode 7%Z None None None)].

Definition own_child_state : State Z :=
  Eval vm_compute in default init (run own_child_calls init).

Definition shared_leaf_state : State Z :=
  Eval vm_compute in default init (run shared_leaf_calls init).

Definition tree_state : State Z :=
  Eval vm_compute in default init (run_ok tree_calls init).

(** [a = createLeaf(1); a->replaceLeft(a); root = fork(0, a, nullptr)] with
    the handle to [a] given up: the caller holds [root] only. *)
Definition cycle_calls : list (call Z) :=
  [CreateLeaf 1%Z; ReplaceLeft 0 (Some 0); Fork 0%Z (Some 0) None; Drop 0].

Definition cycle_state : State Z :=
  Eval vm_compute in default init (run cycle_calls init).

Definition drop_root_state : State Z :=
  Eval vm_compute in default init (run drop_root_calls init).

(** [a = createLeaf(1); a->replaceLeft(a)] *)
Definition self_link_calls : list (call Z) :=
  [CreateLeaf 1%Z; ReplaceLeft 0 (Some 0)].

Definition self_link_state : State Z :=
  Eval vm_compute in default init (run self_link_calls init).

(** * Reading the store after a write *)

Section StoreLemmas.
Context {T : Type}.
Implicit Types (h : list (cell T)) (nd : TNode T) (p q n : loc)
  (x w : option loc).

Lemma node_at_Some h p nd : node_at h p = Some nd ↔ h !! p = Some (Live nd).
Proof.
  unfold node_at. destruct (h !! p) as [[?|]|]; split; congruence.
Qed.

Lemma node_at_lt h p nd : node_at h p = Some nd → p < length h.
Proof. rewrite node_at_Some. apply lookup_lt_Some. Qed.

Lemma node_at_length h : node_at h (length h) = None.
Proof.
  unfold node_at. rewrite (lookup_ge_None_2 h (length h)); [done | lia].
Qed.

Lemma is_live_Some h p : is_live h p = true ↔ ∃ nd, node_at h p = Some nd.
Proof.
  unfold is_live. destruct (node_at h p); split; eauto; try congruence.
  intros [? ?]; congruence.
Qed.

Lemma is_live_node h p nd : node_at h p = Some nd → is_live h p = true.
Proof. unfold is_live. by intros ->. Qed.

Lemma length_update h p f : length (update p f h) = length h.
Proof. apply length_alter. Qed.

Lemma length_setParent h x w : length (setParent x w h) = length h.
Proof. destruct x; simpl; [apply length_update | done]. Qed.

(** A write maps over the node it addresses and leaves the others. *)
Lemma node_at_update h p f q :
  node_at (update p f h) q =
  (λ nd, if decide (p = q) then f nd else nd) <$> node_at h q.
Proof.
  unfold node_at, update. destruct (decide (p = q)) as [->|Hne].
  - rewrite list_lookup_alter_eq. destruct (h !! q) as [[?|]|]; done.
  - rewrite list_lookup_alter_ne by done.
    destruct (h !! q) as [[?|]|]; done.
Qed.

Lemma node_at_setParent h x w q :
  node_at (setParent x w h) q =
  (λ nd, if decide (x = Some q) then with_parent w nd else nd)
    <$> node_at h q.
Proof.
  destruct x as [n|]; simpl.
  - rewrite node_at_update. destruct (node_at h q); simpl; [|done].
    destruct (decide (n = q)), (decide (Some n = Some q)); congruence.
  - by destruct (node_at h q).
Qed.

Lemma node_at_make_shared h nd q :
  node_at (h ++ [Live nd]) q =
  if decide (q = length h) then Some nd else node_at h q.
Proof.
  unfold node_at. destruct (decide (q = length h)) as [->|Hne].
  - by rewrite list_lookup_middle.
  - destruct (decide (q < length h)).
    + by rewrite lookup_app_l.
    + rewrite !lookup_ge_None_2; [done | lia |].
      rewrite length_app; simpl; lia.
Qed.

Lemma node_at_free h p q :
  node_at (<[p := Freed]> h) q =
  if decide (p = q) then None else node_at h q.
Proof.
  unfold node_at. destruct (decide (p = q)) as [->|Hne].
  - destruct (decide (q < length h)).
    + by rewrite list_lookup_insert_eq.
    + rewrite lookup_ge_None_2; [done | rewrite length_insert; lia].
  - by rewrite list_lookup_insert_ne.
Qed.

(** Writing a back-reference does not change what the slots hold. *)
Lemma getLeft_setParent h x w n : getLeft (setParent x w h) n = getLeft h n.
Proof.
  unfold getLeft. rewrite node_at_setParent.
  destruct (node_at h n); simpl; [|done]. by case_decide.
Qed.

Lemma getRight_setParent h x w n : getRight (setParent x w h) n = getRight h n.
Proof.
  unfold getRight. rewrite node_at_setParent.
  destruct (node_at h n); simpl; [|done]. by case_decide.
Qed.

(** The methods with the reads of the slots resolved. *)
Lemma replaceLeft_eq h n x :
  replaceLeft n x h =
  (getLeft h n,
   update n (with_left x)
     (setParent (getLeft h n) None (setParent x (Some n) h))).
Proof. unfold replaceLeft. by rewrite !getLeft_setParent. Qed.

Lemma replaceRight_eq h n x :
  replaceRight n x h =
  (getRight h n,
   update n (with_right x)
     (setParent (getRight h n) None (setParent x (Some n) h))).
Proof. unfold replaceRight. by rewrite !getRight_setParent. Qed.

Lemma fork_eq h (v : T) l r :
  fork v l r h =
  (length h,
   setParent r (Some (length h))
     (setParent l (Some (length h)) (h ++ [Live (mkTNode v l r None)]))).
Proof.
  unfold fork, make_shared.
  rewrite getRight_setParent. unfold getLeft, getRight.
  rewrite node_at_make_shared. by rewrite decide_True.
Qed.

End StoreLemmas.

(** Resolve the methods, then push [node_at] through the writes; the case
  analysis starts from the nodes of the initial store. *)
Ltac store_unfold :=
  unfold removeLeft, removeRight, replaceLeftWithLeaf, replaceRightWithLeaf,
    createLeaf, make_shared in *;
  cbv beta iota zeta in *;
  rewrite ?replaceLeft_eq, ?replaceRight_eq, ?fork_eq in *;
  cbv beta iota zeta in *;
  rewrite ?replaceLeft_eq, ?replaceRight_eq, ?fork_eq in *;
  unfold hasParent_spec, hasLeft, hasRight, getValue, getParent,
    lock, is_live in *;
  simpl in *.

Ltac store_rw1 :=
  first
    [ rewrite node_at_update in *
    | rewrite node_at_setParent in *
    | rewrite node_at_make_shared in *
    | rewrite node_at_free in *
    | rewrite node_at_length in *
    | rewrite length_update in *
    | rewrite length_setParent in *
    | rewrite length_app in * ].

Ltac store_rw := repeat store_rw1.

Ltac store_decide :=
  match goal with
  | |- context [decide ?P] =>
      destruct (decide P); simplify_eq/=; try (exfalso; lia)
  | H : context [decide ?P] |- _ =>
      destruct (decide P); simplify_eq/=; try (exfalso; lia)
  end.

Ltac store_node :=
  match goal with
  | |- context [node_at ?h ?p] =>
      is_var h;
      let E := fresh "E" in destruct (node_at h p) eqn:E; simplify_eq/=
  | H : context [_ <$> node_at ?h ?p] |- _ =>
      is_var h;
      let E := fresh "E" in destruct (node_at h p) eqn:E; simplify_eq/=
  | H : context [match node_at ?h ?p with _ => _ end] |- _ =>
      is_var h;
      let E := fresh "E" in destruct (node_at h p) eqn:E; simplify_eq/=
  end.

(** Comparisons of addresses that arithmetic settles need no case split. *)
Ltac store_arith :=
  match goal with
  | |- context [decide ?P] =>
      first [ rewrite (decide_True (P := P)) by lia
            | rewrite (decide_False (P := P)) by lia ]
  | H : context [decide ?P] |- _ =>
      first [ rewrite (decide_True (P := P)) in H by lia
            | rewrite (decide_False (P := P)) in H by lia ]
  end.

Ltac store_cases :=
  store_rw; unfold getLeft, getRight in *; store_rw; simpl in *;
  repeat first
    [ store_arith | store_node | store_decide
    | store_rw1 | progress simpl in * ].

(** * The methods, one call at a time *)

Section Methods.
Context {T : Type}.
Implicit Types (h : list (cell T)) (nd : TNode T) (p q n c y : loc)
  (x l r : option loc) (v : T).

Lemma replaceLeft_old h n x : fst (replaceLeft n x h) = getLeft h n.
Proof. by rewrite replaceLeft_eq. Qed.

Lemma replaceRight_old h n x : fst (replaceRight n x h) = getRight h n.
Proof. by rewrite replaceRight_eq. Qed.

(** Writing a member destroys nothing, so a weak pointer resolves as
    before. *)
Lemma lock_update h n (f : TNode T → TNode T) (w : option loc) :
  lock (update n f h) w = lock h w.
Proof.
  unfold lock, is_live. destruct w as [p|]; [|done].
  rewrite node_at_update. by destruct (node_at h p).
Qed.

Lemma lock_setParent h x (w' w : option loc) :
  lock (setParent x w' h) w = lock h w.
Proof.
  unfold lock, is_live. destruct w as [p|]; [|done].
  rewrite node_at_setParent. by destruct (node_at h p).
Qed.

(** C2.  [replaceLeft] is the three steps of the specification in their
    order, and each step is seen in the result: (1) a live new child that
    is not the current left child ends with the receiver as its parent;
    (2) the current left child ends with no parent, also when it is the
    new child itself, because its back-reference is cleared after the new
    child's has been set; (3) the slot of a live receiver holds the
    argument, and the call returns the child the slot held.  No other
    back-reference changes.  [replaceRight] is the same on the right
    slot. *)
Theorem replace_protocol h n x :
  replaceLeft n x h = replaceLeft_spec n x h ∧
  replaceRight n x h = replaceRight_spec n x h ∧
  fst (replaceLeft n x h) = getLeft h n ∧
  fst (replaceRight n x h) = getRight h n ∧
  (is_live h n = true →
     getLeft (snd (replaceLeft n x h)) n = x ∧
     getRight (snd (replaceRight n x h)) n = x) ∧
  (is_live h n = true →
     ∀ c, x = Some c → is_live h c = true →
       (getLeft h n ≠ Some c →
          getParent (snd (replaceLeft n x h)) c = Some n) ∧
       (getRight h n ≠ Some c →
          getParent (snd (replaceRight n x h)) c = Some n)) ∧
  (∀ c, getLeft h n = Some c →
     getParent (snd (replaceLeft n x h)) c = None) ∧
  (∀ c, getRight h n = Some c →
     getParent (snd (replaceRight n x h)) c = None) ∧
  (∀ q, x ≠ Some q →
     (getLeft h n ≠ Some q →
        getParent (snd (replaceLeft n x h)) q = getParent h q) ∧
     (getRight h n ≠ Some q →
        getParent (snd (replaceRight n x h)) q = getParent h q)).
Proof.
  split_and!.
  - by destruct x.
  - by destruct x.
  - apply replaceLeft_old.
  - apply replaceRight_old.
  - intros Hn. apply is_live_Some in Hn as [nd Hn].
    split; store_unfold; store_cases; done.
  - intros Hn c -> Hc. apply is_live_Some in Hn as [nd Hn].
    apply is_live_Some in Hc as [ndc Hc].
    split; intros Hne; store_unfold; store_cases; done.
  - intros c Hc. store_unfold; store_cases; done.
  - intros c Hc. store_unfold; store_cases; done.
  - intros q Hx. split; intros Hne.
    + rewrite replaceLeft_eq; cbn [snd]. unfold getParent.
      rewrite node_at_update, !node_at_setParent.
      destruct (node_at h q) as [ndq|]; simpl; [|done].
      rewrite lock_update, !lock_setParent.
      rewrite (decide_False (P := x = Some q)) by done.
      rewrite (decide_False (P := getLeft h n = Some q)) by done.
      by case_decide.
    + rewrite replaceRight_eq; cbn [snd]. unfold getParent.
      rewrite node_at_update, !node_at_setParent.
      destruct (node_at h q) as [ndq|]; simpl; [|done].
      rewrite lock_update, !lock_setParent.
      rewrite (decide_False (P := x = Some q)) by done.
      rewrite (decide_False (P := getRight h n = Some q)) by done.
      by case_decide.
Qed.

(** C9.  [createLeaf v] allocates at an address that named no node before,
    leaves every existing cell as it was, and the new node is complete at
    once: it holds [v], [hasLeft] and [hasRight] are false, and
    [getParent] is empty.  [hasParent] has no value to state (see
    [hasParent_spec]). *)
Theorem createLeaf_fresh v h :
  let '(p, h') := createLeaf v h in
  h !! p = None ∧
  node_at h' p = Some (mkTNode v None None None) ∧
  getValue h' p = Some v ∧
  hasLeft h' p = false ∧
  hasRight h' p = false ∧
  getParent h' p = None ∧
  (∀ q, q ≠ p → h' !! q = h !! q).
Proof.
  unfold createLeaf, make_shared.
  assert (node_at (h ++ [Live (mkTNode v None None None)]) (length h)
          = Some (mkTNode v None None None)) as Hn.
  { rewrite node_at_make_shared. by rewrite decide_True. }
  split_and!.
  - apply lookup_ge_None_2. lia.
  - done.
  - unfold getValue. by rewrite Hn.
  - unfold hasLeft. by rewrite Hn.
  - unfold hasRight. by rewrite Hn.
  - unfold getParent. by rewrite Hn.
  - intros q Hq. destruct (decide (q < length h)).
    + by rewrite lookup_app_l.
    + rewrite !lookup_ge_None_2; [done | lia |].
      rewrite length_app; simpl; lia.
Qed.

(** C5.  Replacing the left child [c] of [n] by [y] and then putting the
    returned child back restores the slot, hands [y] back, and leaves [y]
    alive with [getParent] empty.  [hasParent] has no value to state (see
    [hasParent_spec]). *)
Theorem replaceLeft_round_trip h n c y :
  getLeft h n = Some c →
  is_live h y = true →
  let '(old, h1) := replaceLeft n (Some y) h in
  let '(back, h2) := replaceLeft n old h1 in
  old = Some c ∧
  back = Some y ∧
  getLeft h2 n = old ∧
  is_live h2 y = true ∧
  getParent h2 y = None.
Proof.
  intros Hl Hy. apply is_live_Some in Hy as [ndy Hy].
  store_unfold. store_cases; done.
Qed.

(** C7.  Handing a node its own current left child: the call returns the
    child, the slot still holds it, and [getParent] of the child is empty
    although it is attached.  [hasParent] has no value to state (see
    [hasParent_spec]). *)
Theorem replaceLeft_own_child h n c :
  getLeft h n = Some c →
  is_live h c = true →
  let '(ret, h') := replaceLeft n (Some c) h in
  ret = Some c ∧
  getLeft h' n = Some c ∧
  is_live h' c = true ∧
  getParent h' c = None.
Proof.
  intros Hl Hc. store_unfold. store_cases; done.
Qed.

(** C8.  [removeLeft] is [replaceLeft] with the null pointer, as a
    function of the store and as a call seen by the owner of the handles,
    and likewise on the right: the child of the slot is returned, the slot
    is left empty, the other slot is not touched, and the returned child
    has no parent. *)
Theorem remove_is_replace_absent h n :
  removeLeft n h = replaceLeft n None h ∧
  removeRight n h = replaceRight n None h ∧
  (∀ s : State T,
     exec (RemoveLeft n) s = exec (ReplaceLeft n None) s ∧
     exec (RemoveRight n) s = exec (ReplaceRight n None) s) ∧
  fst (removeLeft n h) = getLeft h n ∧
  fst (removeRight n h) = getRight h n ∧
  (is_live h n = true →
     getLeft (snd (removeLeft n h)) n = None ∧
     getRight (snd (removeLeft n h)) n = getRight h n ∧
     getRight (snd (removeRight n h)) n = None ∧
     getLeft (snd (removeRight n h)) n = getLeft h n) ∧
  (∀ c, getLeft h n = Some c →
     getParent (snd (removeLeft n h)) c = None) ∧
  (∀ c, getRight h n = Some c →
     getParent (snd (removeRight n h)) c = None).
Proof.
  split_and!; try done.
  - intros s. simpl. unfold removeLeft, removeRight.
    by rewrite andb_true_r.
  - apply replaceLeft_old.
  - apply replaceRight_old.
  - intros Hn. apply is_live_Some in Hn as [nd Hn].
    split_and!; store_unfold; store_cases; done.
  - intros c Hc. store_unfold; store_cases; done.
  - intros c Hc. store_unfold; store_cases; done.
Qed.

(** C4.  [fork v l r] allocates a node holding [v] whose slots hold [l]
    and [r], and every supplied child that is alive has the new node as
    its parent when [fork] returns; [getParent] of the new node is empty.
    In particular, for two new leaves [a] and [b] holding [va] and [vb]
    and [root = fork(vr, a, b)]: the left child of [root] is [a] and
    holds [va], its right child is [b] and holds [vb], the parent of [a]
    and of [b] is [root], which holds [vr] and whose [getParent] is empty.
    [hasParent] has no value to state (see [hasParent_spec]). *)
Theorem fork_links :
  (∀ h va vb vr,
     let '(a, h1) := createLeaf va h in
     let '(b, h2) := createLeaf vb h1 in
     let '(root, h3) := fork vr (Some a) (Some b) h2 in
     getLeft h3 root = Some a ∧ getValue h3 a = Some va ∧
     getRight h3 root = Some b ∧ getValue h3 b = Some vb ∧
     getParent h3 a = Some root ∧ getParent h3 b = Some root ∧
     getValue h3 root = Some vr ∧
     getParent h3 root = None) ∧
  (∀ h v l r,
     (∀ c, l = Some c ∨ r = Some c → is_live h c = true) →
     let '(ptr, h') := fork v l r h in
     h !! ptr = None ∧
     getValue h' ptr = Some v ∧
     getLeft h' ptr = l ∧
     getRight h' ptr = r ∧
     getParent h' ptr = None ∧
     (∀ c, l = Some c ∨ r = Some c → getParent h' c = Some ptr)).
Proof.
  split.
  - intros h va vb vr. store_unfold. store_cases; by split_and!.
  - intros h v l r Hlive. rewrite fork_eq.
    assert (∀ c, l = Some c ∨ r = Some c →
            c < length h ∧ ∃ nd, node_at h c = Some nd) as Hc.
    { intros c Hc. apply Hlive, is_live_Some in Hc as [nd Hc].
      split; [by eapply node_at_lt | by exists nd]. }
    clear Hlive. split.
    { apply lookup_ge_None_2. lia. }
    destruct l as [cl|], r as [cr|].
    all: try (destruct (Hc cl) as [? [ndl ?]]; [by auto|]).
    all: try (destruct (Hc cr) as [? [ndr ?]]; [by auto|]).
    all: clear Hc; split_and!; try (intros c [?|?]; simplify_eq).
    all: store_unfold; store_cases; try lia.
    all: by split_and?.
Qed.

End Methods.

(** * Use counts *)

Section Counting.
Context {T : Type}.
Implicit Types (s : State T) (h : list (cell T)) (nd : TNode T)
  (p q n c : loc).

Lemma holds_node h n c :
  holds h n c ↔
  ∃ nd, node_at h n = Some nd ∧ (left nd = Some c ∨ right nd = Some c).
Proof.
  unfold holds, getLeft, getRight. destruct (node_at h n) as [nd|].
  - split; [eauto | by intros (? & ? & ?); simplify_eq].
  - split; [by intros [?|?] | by intros (? & ? & ?)].
Qed.

Lemma sum_list_with_pos {A} (f : A → nat) (l : list A) :
  0 < sum_list_with f l ↔ ∃ i a, l !! i = Some a ∧ 0 < f a.
Proof.
  induction l as [|a l IH]; simpl.
  - split; [lia | by intros (i & a' & ? & _)].
  - split.
    + intros Hs. destruct (decide (0 < f a)) as [Ha|Ha].
      * by exists 0, a.
      * destruct IH as [IH _]. destruct IH as (i & a' & Hi & Ha'); [lia|].
        by exists (S i), a'.
    + intros ([|i] & a' & Hi & Ha'); simpl in Hi.
      * simplify_eq. lia.
      * assert (0 < sum_list_with f l); [|lia].
        apply IH. by exists i, a'.
Qed.

Lemma handle_refs_pos p (hs : list loc) : 0 < handle_refs p hs ↔ p ∈ hs.
Proof.
  unfold handle_refs. rewrite sum_list_with_pos. split.
  - intros (i & a & Hi & Ha). case_decide; [|lia]. subst a.
    by eapply list_elem_of_lookup_2.
  - intros Hin. apply list_elem_of_lookup in Hin as [i Hi].
    exists i, p. split; [done|]. rewrite decide_True by done. lia.
Qed.

Lemma incoming_pos h p : 0 < incoming h p ↔ ∃ n, holds h n p.
Proof.
  unfold incoming. rewrite sum_list_with_pos. split.
  - intros (i & [nd|] & Hi & Ha); simpl in Ha; [|lia].
    exists i. apply holds_node. exists nd. split; [by apply node_at_Some|].
    repeat case_decide; try lia; tauto.
  - intros [n Hn]. apply holds_node in Hn as (nd & Hn & Hc).
    exists n, (Live nd). split; [by apply node_at_Some|]. simpl.
    destruct Hc as [Hc|Hc]; rewrite Hc.
    + rewrite decide_True by done. lia.
    + rewrite (decide_True (P := Some p = Some p)) by done. lia.
Qed.

Lemma use_count_pos s p : 0 < use_count s p ↔ referenced s p.
Proof.
  unfold use_count, referenced.
  rewrite <- handle_refs_pos, <- incoming_pos. lia.
Qed.

Lemma use_count_zero s p : use_count s p = 0 ↔ ¬ referenced s p.
Proof. rewrite <- use_count_pos. lia. Qed.

Lemma incoming_zero h p : incoming h p = 0 ↔ ∀ n, ¬ holds h n p.
Proof.
  pose proof (incoming_pos h p) as Hp. split.
  - intros Hz n Hn. assert (0 < incoming h p); [|lia]. apply Hp. eauto.
  - intros Hno. destruct (decide (0 < incoming h p)) as [Hpos|]; [|lia].
    apply Hp in Hpos as [n Hn]. by destruct (Hno n).
Qed.

Lemma referenced_dec s p : referenced s p ∨ ¬ referenced s p.
Proof.
  destruct (decide (0 < use_count s p)) as [Hpos|Hz].
  - left. by apply use_count_pos.
  - right. apply use_count_zero. lia.
Qed.

Lemma live_count_length h : live_count h ≤ length h.
Proof.
  unfold live_count. induction h as [|[?|] h IH]; simpl; lia.
Qed.

Lemma live_count_free h q nd :
  node_at h q = Some nd →
  live_count (<[q := Freed]> h) + 1 = live_count h.
Proof.
  rewrite node_at_Some. unfold live_count.
  revert q. induction h as [|c h IH]; intros [|q] Hq; simpl in *;
    simplify_eq; simpl; [lia|].
  specialize (IH q Hq). lia.
Qed.

End Counting.

(** * Destruction *)

Section Release.
Context {T : Type}.
Implicit Types (s : State T) (h : list (cell T)) (nd : TNode T)
  (p q n c : loc) (x : option loc).

Lemma holds_free h p n c :
  holds (<[p := Freed]> h) n c ↔ n ≠ p ∧ holds h n c.
Proof.
  rewrite !holds_node. setoid_rewrite node_at_free.
  destruct (decide (p = n)) as [->|]; naive_solver.
Qed.

Lemma is_live_free h p q :
  is_live (<[p := Freed]> h) q = true ↔ q ≠ p ∧ is_live h q = true.
Proof.
  unfold is_live. rewrite node_at_free.
  destruct (decide (p = q)) as [->|]; naive_solver.
Qed.

(** What a cascade leaves behind, given that only [x] and the nodes of
    [A] can be garbage when it starts. *)
Lemma release_clean f : ∀ x s (A : loc → Prop),
  live_count (heap s) < f →
  no_dangling s →
  (∀ q, garbage s q → x = Some q ∨ A q) →
  handles (release f x s) = handles s ∧
  length (heap (release f x s)) = length (heap s) ∧
  (∀ q nd, node_at (heap (release f x s)) q = Some nd →
           node_at (heap s) q = Some nd) ∧
  live_count (heap (release f x s)) ≤ live_count (heap s) ∧
  no_dangling (release f x s) ∧
  (∀ q, garbage (release f x s) q → A q).
Proof.
  induction f as [|f IH]; intros x s A Hfuel Hnd Hg; [lia|].
  destruct x as [p|]; simpl; [|by naive_solver].
  destruct (node_at (heap s) p) as [nd|] eqn:Hp.
  2:{ split_and!; try done. intros q Hq.
      destruct (Hg q Hq) as [?|?]; [|done]. simplify_eq.
      destruct Hq as [Hq _]. unfold is_live in Hq. by rewrite Hp in Hq. }
  destruct (decide (use_count s p = 0)) as [Hz|Hnz].
  2:{ split_and!; try done. intros q Hq.
      destruct (Hg q Hq) as [?|?]; [|done]. simplify_eq.
      destruct Hq as [_ Hq]. by apply use_count_zero in Hq. }
  apply use_count_zero in Hz.
  set (s1 := mkState (<[p := Freed]> (heap s)) (handles s)).
  assert (no_dangling s1) as Hnd1.
  { destruct Hnd as [Hh Hs]. split; simpl.
    - intros q Hq. apply is_live_free. split; [|by apply Hh].
      intros ->. apply Hz. by left.
    - intros n c Hc. apply holds_free in Hc as [Hn Hc].
      apply is_live_free. split; [|by eapply Hs].
      intros ->. apply Hz. right. eauto. }
  assert (∀ q, garbage s1 q →
            right nd = Some q ∨ (left nd = Some q ∨ A q)) as Hg1.
  { intros q [Hlive Hnr]. simpl in *.
    apply is_live_free in Hlive as [Hqp Hlive].
    destruct (referenced_dec s q) as [Href|Href].
    - destruct Href as [Hin|[n Hn]].
      + exfalso. apply Hnr. by left.
      + destruct (decide (n = p)) as [->|Hne].
        * apply holds_node in Hn as (nd' & Hn' & Hc). simplify_eq. tauto.
        * exfalso. apply Hnr. right. exists n. simpl.
          apply holds_free. done.
    - destruct (Hg q) as [?|?]; [done | simplify_eq | tauto]. }
  assert (live_count (heap s1) < f) as Hf1.
  { simpl. pose proof (live_count_free _ _ _ Hp). lia. }
  destruct (IH (right nd) s1 _ Hf1 Hnd1 Hg1)
    as (Hh2 & Hl2 & Hn2 & Hc2 & Hnd2 & Hg2).
  set (s2 := release f (right nd) s1) in *.
  assert (live_count (heap s2) < f) as Hf2 by lia.
  destruct (IH (left nd) s2 A Hf2 Hnd2)
    as (Hh3 & Hl3 & Hn3 & Hc3 & Hnd3 & Hg3).
  { intros q Hq. apply Hg2 in Hq. tauto. }
  pose proof (live_count_free _ _ _ Hp).
  split_and!; try done.
  - by rewrite Hh3, Hh2.
  - rewrite Hl3, Hl2. simpl. by rewrite length_insert.
  - intros q nd' Hq. apply Hn3, Hn2 in Hq. simpl in Hq.
    rewrite node_at_free in Hq. by case_decide.
  - simpl in *. lia.
Qed.

End Release.

(** * Strong pointers stay valid and nothing live is unowned *)

Section Sound.
Context {T : Type}.
Implicit Types (s : State T) (h : list (cell T)) (nd : TNode T)
  (p q n m c : loc) (x l r w : option loc) (v : T).

Lemma is_live_update h n f q : is_live (update n f h) q = is_live h q.
Proof.
  unfold is_live. rewrite node_at_update. by destruct (node_at h q).
Qed.

Lemma is_live_setParent h x w q : is_live (setParent x w h) q = is_live h q.
Proof.
  unfold is_live. rewrite node_at_setParent. by destruct (node_at h q).
Qed.

Lemma is_live_make_shared h nd q :
  is_live (h ++ [Live nd]) q = true ↔ q = length h ∨ is_live h q = true.
Proof.
  unfold is_live. rewrite node_at_make_shared.
  case_decide; [tauto|]. destruct (node_at h q); naive_solver.
Qed.

Lemma holds_setParent h x w n c : holds (setParent x w h) n c ↔ holds h n c.
Proof. unfold holds. by rewrite getLeft_setParent, getRight_setParent. Qed.

Lemma holds_live h n c : holds h n c → is_live h n = true.
Proof.
  rewrite holds_node. intros (nd & Hn & _). by eapply is_live_node.
Qed.

Lemma holds_with_left h n x m c :
  holds (update n (with_left x) h) m c ↔
  (m ≠ n ∧ holds h m c) ∨
  (m = n ∧ is_live h n = true ∧ (x = Some c ∨ getRight h n = Some c)).
Proof.
  unfold holds, getLeft, getRight, is_live. rewrite node_at_update.
  destruct (decide (n = m)) as [->|]; destruct (node_at h m); simpl;
    naive_solver.
Qed.

Lemma holds_with_right h n x m c :
  holds (update n (with_right x) h) m c ↔
  (m ≠ n ∧ holds h m c) ∨
  (m = n ∧ is_live h n = true ∧ (getLeft h n = Some c ∨ x = Some c)).
Proof.
  unfold holds, getLeft, getRight, is_live. rewrite node_at_update.
  destruct (decide (n = m)) as [->|]; destruct (node_at h m); simpl;
    naive_solver.
Qed.

Lemma holds_make_shared h nd m c :
  holds (h ++ [Live nd]) m c ↔
  (m = length h ∧ (left nd = Some c ∨ right nd = Some c)) ∨
  (m ≠ length h ∧ holds h m c).
Proof.
  unfold holds, getLeft, getRight. rewrite node_at_make_shared.
  case_decide; naive_solver.
Qed.

(** The slots after each method, in terms of the slots before. *)
Lemma holds_replaceLeft h n x m c :
  holds (snd (replaceLeft n x h)) m c ↔
  (m ≠ n ∧ holds h m c) ∨
  (m = n ∧ is_live h n = true ∧ (x = Some c ∨ getRight h n = Some c)).
Proof.
  rewrite replaceLeft_eq; simpl. rewrite holds_with_left.
  by rewrite !holds_setParent, !is_live_setParent, !getRight_setParent.
Qed.

Lemma holds_replaceRight h n x m c :
  holds (snd (replaceRight n x h)) m c ↔
  (m ≠ n ∧ holds h m c) ∨
  (m = n ∧ is_live h n = true ∧ (getLeft h n = Some c ∨ x = Some c)).
Proof.
  rewrite replaceRight_eq; simpl. rewrite holds_with_right.
  by rewrite !holds_setParent, !is_live_setParent, !getLeft_setParent.
Qed.

Lemma is_live_replaceLeft h n x q :
  is_live (snd (replaceLeft n x h)) q = is_live h q.
Proof.
  rewrite replaceLeft_eq; simpl.
  by rewrite is_live_update, !is_live_setParent.
Qed.

Lemma is_live_replaceRight h n x q :
  is_live (snd (replaceRight n x h)) q = is_live h q.
Proof.
  rewrite replaceRight_eq; simpl.
  by rewrite is_live_update, !is_live_setParent.
Qed.

Lemma holds_fork h v l r m c :
  holds (snd (fork v l r h)) m c ↔
  (m = length h ∧ (l = Some c ∨ r = Some c)) ∨
  (m ≠ length h ∧ holds h m c).
Proof.
  rewrite fork_eq; simpl.
  by rewrite !holds_setParent, holds_make_shared.
Qed.

Lemma is_live_fork h v l r q :
  is_live (snd (fork v l r h)) q = true ↔ q = length h ∨ is_live h q = true.
Proof.
  rewrite fork_eq; simpl.
  by rewrite !is_live_setParent, is_live_make_shared.
Qed.

Lemma not_live_length h : is_live h (length h) = false.
Proof. unfold is_live. by rewrite node_at_length. Qed.

Lemma elem_of_keep x (hs : list loc) p :
  p ∈ keep x hs ↔ x = Some p ∨ p ∈ hs.
Proof.
  destruct x as [q|]; simpl; [rewrite elem_of_cons|]; naive_solver.
Qed.

Lemma elem_of_remove_one p q (hs : list loc) :
  (q ∈ remove_one p hs → q ∈ hs) ∧
  (q ∈ hs → q ≠ p → q ∈ remove_one p hs).
Proof.
  induction hs as [|a hs [IH1 IH2]]; simpl; [done|].
  case_decide; subst; rewrite ?elem_of_cons; naive_solver.
Qed.

Lemma held_true s p : held s p = true ↔ p ∈ handles s.
Proof. unfold held. apply bool_decide_eq_true. Qed.

Lemma held_opt_true s x : held_opt s x = true ↔ ∀ p, x = Some p → p ∈ handles s.
Proof.
  destruct x as [p|]; simpl; [rewrite held_true|]; naive_solver.
Qed.

(** A cascade started in a state whose only possible garbage is [p]. *)
Lemma reclaim_sound p s :
  no_dangling s →
  (∀ q, garbage s q → q = p) →
  sound (reclaim p s) ∧
  handles (reclaim p s) = handles s ∧
  length (heap (reclaim p s)) = length (heap s) ∧
  (∀ q nd, node_at (heap (reclaim p s)) q = Some nd →
           node_at (heap s) q = Some nd).
Proof.
  intros Hnd Hg. unfold reclaim.
  assert (live_count (heap s) < S (length (heap s))) as Hfuel.
  { pose proof (live_count_length (heap s)). lia. }
  assert (∀ q, garbage s q → Some p = Some q ∨ False) as Hg0.
  { intros q Hq. left. f_equal. symmetry. by apply Hg. }
  destruct (release_clean _ _ s (λ _, False) Hfuel Hnd Hg0)
    as (Hh & Hl & Hn & _ & Hnd' & Hg').
  by split_and!.
Qed.

(** Letting go of a handle: the state stays sound, the other handles stay,
    and the store changes only by nodes turning into tombstones. *)
Lemma drop_spec p s :
  sound s →
  sound (drop p s) ∧
  handles (drop p s) = remove_one p (handles s) ∧
  length (heap (drop p s)) = length (heap s) ∧
  (∀ q nd, node_at (heap (drop p s)) q = Some nd →
           node_at (heap s) q = Some nd).
Proof.
  intros [[Hh Hs] Hg]. unfold drop.
  set (s0 := mkState (heap s) (remove_one p (handles s))).
  apply (reclaim_sound p s0).
  - split; cbn [heap handles s0]; [|done]. intros q Hq. apply Hh.
    by apply (elem_of_remove_one p q).
  - intros q [Hlive Hnr]; cbn [heap handles s0] in *.
    destruct (decide (q = p)) as [|Hne]; [done|]. exfalso.
    destruct (referenced_dec s q) as [[Hin|Hn]|Hno].
    + apply Hnr. left. cbn [handles s0]. by apply elem_of_remove_one.
    + apply Hnr. by right.
    + by apply (Hg q).
Qed.

Lemma drop_sound p s : sound s → sound (drop p s).
Proof. intros Hs. by destruct (drop_spec p s Hs). Qed.

Lemma sound_replaceLeft s n x :
  sound s → n ∈ handles s → (∀ p, x = Some p → p ∈ handles s) →
  sound (mkState (snd (replaceLeft n x (heap s)))
                 (keep (fst (replaceLeft n x (heap s))) (handles s))).
Proof.
  intros [[Hh Hs] Hg] Hn Hx. rewrite replaceLeft_old.
  split; [split|]; cbn [heap handles].
  - intros p. rewrite elem_of_keep, is_live_replaceLeft.
    intros [Hp|Hp]; [|by auto]. apply (Hs n). by left.
  - intros m c. rewrite holds_replaceLeft, is_live_replaceLeft.
    intros [[_ Hc]|(-> & _ & [Hc|Hc])]; [by eauto | by auto |].
    apply (Hs n). by right.
  - intros q [Hlive Hnr]; cbn [heap handles] in *.
    rewrite is_live_replaceLeft in Hlive.
    destruct (referenced_dec s q) as [[Hin|[m Hm]]|Hno].
    + apply Hnr. left. cbn [heap handles]. apply elem_of_keep. by right.
    + destruct (decide (m = n)) as [->|Hne].
      * destruct Hm as [Hm|Hm].
        -- apply Hnr. left. cbn [heap handles]. apply elem_of_keep. by left.
        -- apply Hnr. right. exists n. cbn [heap handles]. apply holds_replaceLeft.
           right. split_and!; auto.
      * apply Hnr. right. exists m. cbn [heap handles]. apply holds_replaceLeft. auto.
    + by apply (Hg q).
Qed.

Lemma sound_replaceRight s n x :
  sound s → n ∈ handles s → (∀ p, x = Some p → p ∈ handles s) →
  sound (mkState (snd (replaceRight n x (heap s)))
                 (keep (fst (replaceRight n x (heap s))) (handles s))).
Proof.
  intros [[Hh Hs] Hg] Hn Hx. rewrite replaceRight_old.
  split; [split|]; cbn [heap handles].
  - intros p. rewrite elem_of_keep, is_live_replaceRight.
    intros [Hp|Hp]; [|by auto]. apply (Hs n). by right.
  - intros m c. rewrite holds_replaceRight, is_live_replaceRight.
    intros [[_ Hc]|(-> & _ & [Hc|Hc])]; [by eauto | | by auto].
    apply (Hs n). by left.
  - intros q [Hlive Hnr]; cbn [heap handles] in *.
    rewrite is_live_replaceRight in Hlive.
    destruct (referenced_dec s q) as [[Hin|[m Hm]]|Hno].
    + apply Hnr. left. cbn [heap handles]. apply elem_of_keep. by right.
    + destruct (decide (m = n)) as [->|Hne].
      * destruct Hm as [Hm|Hm].
        -- apply Hnr. right. exists n. cbn [heap handles]. apply holds_replaceRight.
           right. split_and!; auto.
        -- apply Hnr. left. cbn [heap handles]. apply elem_of_keep. by left.
      * apply Hnr. right. exists m. cbn [heap handles]. apply holds_replaceRight. auto.
    + by apply (Hg q).
Qed.

Lemma createLeaf_fork v h : createLeaf v h = fork v None None h.
Proof. by rewrite fork_eq. Qed.

Lemma sound_fork s v l r :
  sound s →
  (∀ p, l = Some p → p ∈ handles s) → (∀ p, r = Some p → p ∈ handles s) →
  sound (mkState (snd (fork v l r (heap s)))
                 (fst (fork v l r (heap s)) :: handles s)).
Proof.
  intros [[Hh Hs] Hg] Hl Hr.
  assert (fst (fork v l r (heap s)) = length (heap s)) as ->
    by (by rewrite fork_eq).
  split; [split|]; cbn [heap handles].
  - intros p. rewrite elem_of_cons, is_live_fork.
    intros [->|Hp]; auto.
  - intros m c. rewrite holds_fork, is_live_fork.
    intros [[_ [Hc|Hc]]|[_ Hc]]; right; eauto.
  - intros q [Hlive Hnr]; cbn [heap handles] in *.
    apply is_live_fork in Hlive as [->|Hlive].
    { apply Hnr. left. cbn [handles]. apply elem_of_cons. by left. }
    destruct (referenced_dec s q) as [[Hin|[m Hm]]|Hno].
    + apply Hnr. left. cbn [handles]. apply elem_of_cons. by right.
    + apply Hnr. right. exists m. cbn [heap]. apply holds_fork. right.
      split; [|done]. intros ->. apply holds_live in Hm.
      by rewrite not_live_length in Hm.
    + by apply (Hg q).
Qed.

Lemma sound_acquire s x :
  sound s → (∀ p, x = Some p → is_live (heap s) p = true) →
  sound (mkState (heap s) (keep x (handles s))).
Proof.
  intros [[Hh Hs] Hg] Hx. split; [split|]; cbn [heap handles].
  - intros p. rewrite elem_of_keep. intros [Hp|Hp]; auto.
  - done.
  - intros q [Hlive Hnr]; cbn [heap handles] in *.
    apply (Hg q). split; [done|]. intros [Hin|Hm]; apply Hnr.
    + left. cbn [handles]. apply elem_of_keep. by right.
    + by right.
Qed.

Lemma getParent_live h n p : getParent h n = Some p → is_live h p = true.
Proof.
  unfold getParent, lock. destruct (node_at h n) as [nd|]; [|done].
  destruct (parent nd) as [q|]; [|done].
  destruct (is_live h q) eqn:Hq; [|done]. by intros [= <-].
Qed.

(** [replace*WithLeaf] is [createLeaf], the replace, and the end of the
    temporary that carried the leaf. *)
Lemma exec_replaceLeftWithLeaf s n v s' :
  sound s →
  exec (ReplaceLeftWithLeaf n v) s = Some s' →
  let lf := length (heap s) in
  ∃ s1 s2,
    exec (CreateLeaf v) s = Some s1 ∧
    attach_ok (ReplaceLeft n (Some lf)) s1 = true ∧
    exec (ReplaceLeft n (Some lf)) s1 = Some s2 ∧
    exec (Drop lf) s2 = Some s'.
Proof.
  intros [[Hh Hs] Hg] Hex lf. cbn [exec] in *.
  destruct (held s n) eqn:Hn; [|done]. apply held_true in Hn.
  unfold replaceLeftWithLeaf, createLeaf, make_shared in *.
  set (h1 := heap s ++ [Live (mkTNode v None None None)]) in *.
  cbv beta iota zeta in *. fold lf in Hex.
  destruct (replaceLeft n (Some lf) h1) as [old h2] eqn:Hrep.
  simplify_eq.
  assert (∀ m, ¬ holds (heap s) m lf) as Hfresh.
  { intros m Hm. apply Hs in Hm. subst lf.
    by rewrite not_live_length in Hm. }
  assert (n ≠ lf) as Hnlf.
  { intros ->. apply Hh in Hn. subst lf.
    by rewrite not_live_length in Hn. }
  assert (old ≠ Some lf) as Hold.
  { pose proof (replaceLeft_old h1 n (Some lf)) as Ho.
    rewrite Hrep in Ho. cbn [fst] in Ho. subst old. intros Hl.
    apply (Hfresh n). left. revert Hl. subst h1.
    unfold getLeft. rewrite node_at_make_shared.
    by rewrite decide_False. }
  eexists _, _. split_and!; [done | | |].
  - cbn [attach_ok heap detached]. apply bool_decide_eq_true.
    apply incoming_zero. intros m. fold h1. fold lf.
    subst h1. rewrite holds_make_shared. cbn [left right].
    intros [[_ [?|?]]|[_ Hm]]; [done | done | by apply (Hfresh m)].
  - cbn [exec heap handles held_opt]. fold h1 lf.
    assert (held (mkState h1 (lf :: handles s)) n = true) as ->.
    { apply held_true. cbn [handles]. apply elem_of_cons. by right. }
    assert (held (mkState h1 (lf :: handles s)) lf = true) as ->.
    { apply held_true. cbn [handles]. apply elem_of_cons. by left. }
    cbn [andb]. rewrite Hrep. done.
  - cbn [exec]. rewrite (proj2 (held_true _ lf)).
    2:{ cbn [handles]. apply elem_of_keep. right. apply elem_of_cons. by left. }
    f_equal. unfold drop. cbn [heap handles]. f_equal. f_equal.
    destruct old as [o|]; cbn [keep remove_one].
    + rewrite decide_False by congruence. cbn [remove_one].
      by rewrite decide_True.
    + by rewrite decide_True.
Qed.

Lemma exec_replaceRightWithLeaf s n v s' :
  sound s →
  exec (ReplaceRightWithLeaf n v) s = Some s' →
  let lf := length (heap s) in
  ∃ s1 s2,
    exec (CreateLeaf v) s = Some s1 ∧
    attach_ok (ReplaceRight n (Some lf)) s1 = true ∧
    exec (ReplaceRight n (Some lf)) s1 = Some s2 ∧
    exec (Drop lf) s2 = Some s'.
Proof.
  intros [[Hh Hs] Hg] Hex lf. cbn [exec] in *.
  destruct (held s n) eqn:Hn; [|done]. apply held_true in Hn.
  unfold replaceRightWithLeaf, createLeaf, make_shared in *.
  set (h1 := heap s ++ [Live (mkTNode v None None None)]) in *.
  cbv beta iota zeta in *. fold lf in Hex.
  destruct (replaceRight n (Some lf) h1) as [old h2] eqn:Hrep.
  simplify_eq.
  assert (∀ m, ¬ holds (heap s) m lf) as Hfresh.
  { intros m Hm. apply Hs in Hm. subst lf.
    by rewrite not_live_length in Hm. }
  assert (n ≠ lf) as Hnlf.
  { intros ->. apply Hh in Hn. subst lf.
    by rewrite not_live_length in Hn. }
  assert (old ≠ Some lf) as Hold.
  { pose proof (replaceRight_old h1 n (Some lf)) as Ho.
    rewrite Hrep in Ho. cbn [fst] in Ho. subst old. intros Hl.
    apply (Hfresh n). right. revert Hl. subst h1.
    unfold getRight. rewrite node_at_make_shared.
    by rewrite decide_False. }
  eexists _, _. split_and!; [done | | |].
  - cbn [attach_ok heap detached]. apply bool_decide_eq_true.
    apply incoming_zero. intros m. fold h1. fold lf.
    subst h1. rewrite holds_make_shared. cbn [left right].
    intros [[_ [?|?]]|[_ Hm]]; [done | done | by apply (Hfresh m)].
  - cbn [exec heap handles held_opt]. fold h1 lf.
    assert (held (mkState h1 (lf :: handles s)) n = true) as ->.
    { apply held_true. cbn [handles]. apply elem_of_cons. by right. }
    assert (held (mkState h1 (lf :: handles s)) lf = true) as ->.
    { apply held_true. cbn [handles]. apply elem_of_cons. by left. }
    cbn [andb]. rewrite Hrep. done.
  - cbn [exec]. rewrite (proj2 (held_true _ lf)).
    2:{ cbn [handles]. apply elem_of_keep. right. apply elem_of_cons. by left. }
    f_equal. unfold drop. cbn [heap handles]. f_equal. f_equal.
    destruct old as [o|]; cbn [keep remove_one].
    + rewrite decide_False by congruence. cbn [remove_one].
      by rewrite decide_True.
    + by rewrite decide_True.
Qed.

End Sound.

(** * Sequences of calls *)

Section Runs.
Context {T : Type}.
Implicit Types (s : State T) (h : list (cell T)) (nd : TNode T)
  (p q n m c : loc) (x l r w : option loc) (v : T) (cs : list (call T)).

Lemma init_sound : sound (@init T).
Proof.
  split; [split|]; simpl.
  - intros p Hp. by apply elem_of_nil in Hp.
  - intros n c Hc. apply holds_live in Hc. done.
  - by intros q [Hq _].
Qed.

Lemma exec_sound (k : call T) s s' :
  sound s → exec k s = Some s' → sound s'.
Proof.
  intros Hs Hex.
  destruct k as [v|v l r|n x|n x|n v|n v|n|n|n|n|n|p].
  - cbn [exec] in Hex. rewrite createLeaf_fork in Hex.
    pose proof (sound_fork s v None None Hs) as Hf.
    destruct (fork v None None (heap s)) as [p h'].
    simplify_eq. by apply Hf.
  - cbn [exec] in Hex.
    destruct (held_opt s l) eqn:Hl; [|done].
    destruct (held_opt s r) eqn:Hr; [|done]. cbn [andb] in Hex.
    pose proof (sound_fork s v l r Hs) as Hf.
    destruct (fork v l r (heap s)) as [p h'].
    simplify_eq. apply Hf; by apply held_opt_true.
  - cbn [exec] in Hex.
    destruct (held s n) eqn:Hn; [|done].
    destruct (held_opt s x) eqn:Hx; [|done]. cbn [andb] in Hex.
    pose proof (sound_replaceLeft s n x Hs) as Hf.
    destruct (replaceLeft n x (heap s)) as [old h'].
    simplify_eq. apply Hf; [by apply held_true | by apply held_opt_true].
  - cbn [exec] in Hex.
    destruct (held s n) eqn:Hn; [|done].
    destruct (held_opt s x) eqn:Hx; [|done]. cbn [andb] in Hex.
    pose proof (sound_replaceRight s n x Hs) as Hf.
    destruct (replaceRight n x (heap s)) as [old h'].
    simplify_eq. apply Hf; [by apply held_true | by apply held_opt_true].
  - apply exec_replaceRightWithLeaf in Hex as (s1 & s2 & H1 & _ & H2 & H3);
      [|done].
    cbn [exec] in H1. rewrite createLeaf_fork in H1.
    pose proof (sound_fork s v None None Hs) as Hf.
    destruct (fork v None None (heap s)) as [p h'] eqn:Hfk.
    assert (sound s1) as Hs1 by (simplify_eq; by apply Hf).
    cbn [exec] in H2.
    destruct (held s1 n) eqn:Hn; [|done].
    destruct (held_opt s1 (Some (length (heap s)))) eqn:Hx; [|done].
    cbn [andb] in H2.
    pose proof (sound_replaceRight s1 n (Some (length (heap s))) Hs1) as Hg.
    destruct (replaceRight n (Some (length (heap s))) (heap s1)) as [old h2].
    assert (sound s2) as Hs2.
    { simplify_eq. apply Hg; [by apply held_true | by apply held_opt_true]. }
    cbn [exec] in H3. destruct (held s2 (length (heap s))); [|done].
    simplify_eq. by apply drop_sound.
  - apply exec_replaceLeftWithLeaf in Hex as (s1 & s2 & H1 & _ & H2 & H3);
      [|done].
    cbn [exec] in H1. rewrite createLeaf_fork in H1.
    pose proof (sound_fork s v None None Hs) as Hf.
    destruct (fork v None None (heap s)) as [p h'] eqn:Hfk.
    assert (sound s1) as Hs1 by (simplify_eq; by apply Hf).
    cbn [exec] in H2.
    destruct (held s1 n) eqn:Hn; [|done].
    destruct (held_opt s1 (Some (length (heap s)))) eqn:Hx; [|done].
    cbn [andb] in H2.
    pose proof (sound_replaceLeft s1 n (Some (length (heap s))) Hs1) as Hg.
    destruct (replaceLeft n (Some (length (heap s))) (heap s1)) as [old h2].
    assert (sound s2) as Hs2.
    { simplify_eq. apply Hg; [by apply held_true | by apply held_opt_true]. }
    cbn [exec] in H3. destruct (held s2 (length (heap s))); [|done].
    simplify_eq. by apply drop_sound.
  - cbn [exec] in Hex. unfold removeLeft in Hex.
    destruct (held s n) eqn:Hn; [|done].
    pose proof (sound_replaceLeft s n None Hs) as Hf.
    destruct (replaceLeft n None (heap s)) as [old h'].
    simplify_eq. apply Hf; [by apply held_true | done].
  - cbn [exec] in Hex. unfold removeRight in Hex.
    destruct (held s n) eqn:Hn; [|done].
    pose proof (sound_replaceRight s n None Hs) as Hf.
    destruct (replaceRight n None (heap s)) as [old h'].
    simplify_eq. apply Hf; [by apply held_true | done].
  - cbn [exec] in Hex. destruct (held s n); [|done]. simplify_eq.
    apply sound_acquire; [done|]. intros p Hp.
    destruct Hs as [[_ Hs] _]. apply (Hs n). by left.
  - cbn [exec] in Hex. destruct (held s n); [|done]. simplify_eq.
    apply sound_acquire; [done|]. intros p Hp.
    destruct Hs as [[_ Hs] _]. apply (Hs n). by right.
  - cbn [exec] in Hex. destruct (held s n); [|done]. simplify_eq.
    apply sound_acquire; [done|]. intros p Hp.
    by eapply getParent_live.
  - cbn [exec] in Hex. destruct (held s p); [|done]. simplify_eq.
    by apply drop_sound.
Qed.

Lemma run_sound cs : ∀ s s', sound s → run cs s = Some s' → sound s'.
Proof.
  induction cs as [|k cs IH]; intros s s' Hs Hrun; simpl in Hrun.
  - by simplify_eq.
  - destruct (exec k s) as [s1|] eqn:Hex; [|done].
    eapply IH; [|done]. by eapply exec_sound.
Qed.

Lemma run_ok_run cs : ∀ s s', run_ok cs s = Some s' → run cs s = Some s'.
Proof.
  induction cs as [|k cs IH]; intros s s' Hrun; simpl in *; [done|].
  destruct (attach_ok k s); [|done].
  destruct (exec k s); [|done]. by apply IH.
Qed.

Lemma sound_live_iff s p :
  sound s → is_live (heap s) p = true ↔ 0 < use_count s p.
Proof.
  intros [[Hh Hs] Hg]. rewrite use_count_pos. split.
  - intros Hlive. destruct (referenced_dec s p) as [|Hno]; [done|].
    by destruct (Hg p).
  - intros [Hin|[n Hn]]; [by apply Hh | by eapply Hs].
Qed.

Lemma sum_list_with_alter {A} (f : A → nat) (g : A → A) (l : list A) i :
  (∀ a, f (g a) = f a) →
  sum_list_with f (alter g i l) = sum_list_with f l.
Proof.
  intros Hfg. revert i. induction l as [|a l IH]; intros [|i]; simpl;
    rewrite ?Hfg; try done.
  f_equal. apply IH.
Qed.

Lemma incoming_setParent h x w p :
  incoming (setParent x w h) p = incoming h p.
Proof.
  destruct x as [n|]; [|done]. unfold incoming, setParent, update.
  apply sum_list_with_alter. by intros [nd|].
Qed.

End Runs.

(** * Parent and child links under the attachment discipline *)

Section Linked.
Context {T : Type}.
Implicit Types (s : State T) (h : list (cell T)) (nd : TNode T)
  (p q n m c : loc) (x l r w : option loc) (v : T) (cs : list (call T)).

Lemma node_at_replaceLeft h n x q :
  node_at (snd (replaceLeft n x h)) q =
  (λ nd, mkTNode (value nd)
           (if decide (n = q) then x else left nd)
           (right nd)
           (if decide (getLeft h n = Some q) then None
            else if decide (x = Some q) then Some n else parent nd))
    <$> node_at h q.
Proof.
  rewrite replaceLeft_eq; cbn [snd].
  rewrite node_at_update, !node_at_setParent.
  destruct (node_at h q) as [[]|]; [|done]; simpl.
  repeat case_decide; done.
Qed.

Lemma node_at_replaceRight h n x q :
  node_at (snd (replaceRight n x h)) q =
  (λ nd, mkTNode (value nd)
           (left nd)
           (if decide (n = q) then x else right nd)
           (if decide (getRight h n = Some q) then None
            else if decide (x = Some q) then Some n else parent nd))
    <$> node_at h q.
Proof.
  rewrite replaceRight_eq; cbn [snd].
  rewrite node_at_update, !node_at_setParent.
  destruct (node_at h q) as [[]|]; [|done]; simpl.
  repeat case_decide; done.
Qed.

Lemma node_at_fork h v l r q :
  l ≠ Some (length h) → r ≠ Some (length h) →
  node_at (snd (fork v l r h)) q =
  if decide (q = length h) then Some (mkTNode v l r None)
  else (λ nd, mkTNode (value nd) (left nd) (right nd)
                (if decide (r = Some q) then Some (length h)
                 else if decide (l = Some q) then Some (length h)
                 else parent nd))
         <$> node_at h q.
Proof.
  intros Hl Hr. rewrite fork_eq; cbn [snd].
  rewrite !node_at_setParent, node_at_make_shared.
  destruct (decide (q = length h)) as [->|Hq]; simpl.
  - by rewrite !decide_False.
  - destruct (node_at h q) as [[]|]; [|done]; simpl.
    repeat case_decide; done.
Qed.


Lemma detached_unheld h x : detached h x = true → unheld h x.
Proof.
  intros Hd p m ndm -> Hm. cbn [detached] in Hd.
  apply bool_decide_eq_true in Hd.
  pose proof (proj1 (incoming_zero h p) Hd m) as Hno.
  rewrite holds_node in Hno. split; intros Hc; apply Hno; eauto.
Qed.

Lemma linked_replaceLeft h n x :
  linked h → is_live h n = true → unheld h x →
  linked (snd (replaceLeft n x h)).
Proof.
  intros (L1 & L2 & L3) Hn Hx. apply is_live_Some in Hn as [ndn Hn].
  assert (getLeft h n = left ndn) as Hgl by (unfold getLeft; by rewrite Hn).
  split_and!.
  - intros P C ndP' ndC' HP HC. rewrite node_at_replaceLeft in HP, HC.
    rewrite Hgl in HC.
    destruct (node_at h P) as [ndP|] eqn:EP; [|done].
    destruct (node_at h C) as [ndC|] eqn:EC; [|done].
    simplify_eq/=.
    pose proof (L1 P C _ _ EP EC) as L1PC.
    pose proof (L1 n C _ _ Hn EC) as L1nC.
    pose proof (L2 n ndn C Hn) as L2n.
    pose proof (λ H, Hx C P ndP H EP) as HxP.
    pose proof (λ H, Hx C n ndn H Hn) as Hxn.
    repeat case_decide; simplify_eq; naive_solver.
  - intros P ndP' c HP. rewrite node_at_replaceLeft in HP.
    destruct (node_at h P) as [ndP|] eqn:EP; [|done].
    simplify_eq/=.
    pose proof (L2 P ndP c EP) as L2P.
    pose proof (λ H, Hx c P ndP H EP) as HxP.
    case_decide; naive_solver.
  - intros C ndC' P HC. rewrite node_at_replaceLeft in HC.
    assert (length (snd (replaceLeft n x h)) = length h) as ->.
    { rewrite replaceLeft_eq; cbn [snd].
      by rewrite length_update, !length_setParent. }
    destruct (node_at h C) as [ndC|] eqn:EC; [|done].
    simplify_eq/=.
    pose proof (L3 C ndC P EC) as L3C.
    pose proof (node_at_lt _ _ _ Hn).
    repeat case_decide; naive_solver.
Qed.

Lemma linked_replaceRight h n x :
  linked h → is_live h n = true → unheld h x →
  linked (snd (replaceRight n x h)).
Proof.
  intros (L1 & L2 & L3) Hn Hx. apply is_live_Some in Hn as [ndn Hn].
  assert (getRight h n = right ndn) as Hgl by (unfold getRight; by rewrite Hn).
  split_and!.
  - intros P C ndP' ndC' HP HC. rewrite node_at_replaceRight in HP, HC.
    rewrite Hgl in HC.
    destruct (node_at h P) as [ndP|] eqn:EP; [|done].
    destruct (node_at h C) as [ndC|] eqn:EC; [|done].
    simplify_eq/=.
    pose proof (L1 P C _ _ EP EC) as L1PC.
    pose proof (L1 n C _ _ Hn EC) as L1nC.
    pose proof (L2 n ndn C Hn) as L2n.
    pose proof (λ H, Hx C P ndP H EP) as HxP.
    pose proof (λ H, Hx C n ndn H Hn) as Hxn.
    repeat case_decide; simplify_eq; naive_solver.
  - intros P ndP' c HP. rewrite node_at_replaceRight in HP.
    destruct (node_at h P) as [ndP|] eqn:EP; [|done].
    simplify_eq/=.
    pose proof (L2 P ndP c EP) as L2P.
    pose proof (λ H, Hx c P ndP H EP) as HxP.
    case_decide; naive_solver.
  - intros C ndC' P HC. rewrite node_at_replaceRight in HC.
    assert (length (snd (replaceRight n x h)) = length h) as ->.
    { rewrite replaceRight_eq; cbn [snd].
      by rewrite length_update, !length_setParent. }
    destruct (node_at h C) as [ndC|] eqn:EC; [|done].
    simplify_eq/=.
    pose proof (L3 C ndC P EC) as L3C.
    pose proof (node_at_lt _ _ _ Hn).
    repeat case_decide; naive_solver.
Qed.

Lemma linked_fork h v l r :
  linked h →
  (∀ p, l = Some p ∨ r = Some p → is_live h p = true) →
  (∀ m, ¬ holds h m (length h)) →
  unheld h l → unheld h r → distinct l r = true →
  linked (snd (fork v l r h)).
Proof.
  intros (L1 & L2 & L3) Hlive Hfresh Hl Hr Hlr.
  assert (∀ p, l = Some p ∨ r = Some p → p ≠ length h) as Hne.
  { intros p Hp ->. apply Hlive in Hp. by rewrite not_live_length in Hp. }
  assert (l ≠ Some (length h)) as Hl0 by (intros ?; by eapply Hne; eauto).
  assert (r ≠ Some (length h)) as Hr0 by (intros ?; by eapply Hne; eauto).
  assert (length (snd (fork v l r h)) = S (length h)) as Hlen.
  { rewrite fork_eq; cbn [snd].
    rewrite !length_setParent, length_app. simpl. lia. }
  split_and!.
  - intros P C ndP' ndC' HP HC. rewrite node_at_fork in HP, HC by done.
    destruct (decide (P = length h)) as [->|HPn];
      destruct (decide (C = length h)) as [->|HCn]; simplify_eq/=.
    + naive_solver.
    + destruct (node_at h C) as [ndC|] eqn:EC; [|done]. simplify_eq/=.
      pose proof (L3 C ndC (length h) EC).
      repeat case_decide; simplify_eq; split; try naive_solver lia.
    + destruct (node_at h P) as [ndP|] eqn:EP; [|done]. simplify_eq/=.
      split; [|done]. intros Hc. exfalso. apply (Hfresh P).
      apply holds_node. eauto.
    + destruct (node_at h P) as [ndP|] eqn:EP; [|done].
      destruct (node_at h C) as [ndC|] eqn:EC; [|done]. simplify_eq/=.
      pose proof (L1 P C _ _ EP EC) as L1PC.
      pose proof (λ H, Hl C P ndP H EP) as HlP.
      pose proof (λ H, Hr C P ndP H EP) as HrP.
      repeat case_decide; simplify_eq; naive_solver.
  - intros P ndP' c HP. rewrite node_at_fork in HP by done.
    destruct (decide (P = length h)) as [->|HPn]; simplify_eq/=.
    + intros -> ->. cbn [distinct] in Hlr.
      by apply bool_decide_eq_true in Hlr.
    + destruct (node_at h P) as [ndP|] eqn:EP; [|done]. simplify_eq/=.
      by apply (L2 P ndP c EP).
  - intros C ndC' P HC. rewrite node_at_fork in HC by done. rewrite Hlen.
    destruct (decide (C = length h)) as [->|HCn]; simplify_eq/=; [done|].
    destruct (node_at h C) as [ndC|] eqn:EC; [|done]. simplify_eq/=.
    pose proof (L3 C ndC P EC) as L3C.
    repeat case_decide; naive_solver lia.
Qed.

Lemma linked_mono h h' :
  length h' = length h →
  (∀ q nd, node_at h' q = Some nd → node_at h q = Some nd) →
  linked h → linked h'.
Proof.
  intros Hlen Hsub (L1 & L2 & L3). split_and!.
  - intros P C ndP ndC HP HC. apply Hsub in HP, HC. by apply L1.
  - intros P ndP c HP. apply Hsub in HP. by eapply L2.
  - intros C ndC P HC. apply Hsub in HC. rewrite Hlen. by eapply L3.
Qed.

Lemma linked_drop s p : sound s → linked (heap s) → linked (heap (drop p s)).
Proof.
  intros Hs Hl. destruct (drop_spec p s Hs) as (_ & _ & Hlen & Hsub).
  by eapply linked_mono.
Qed.

End Linked.

Section Discipline.
Context {T : Type}.
Implicit Types (s : State T) (h : list (cell T)) (nd : TNode T)
  (p q n m c : loc) (x l r w : option loc) (v : T) (cs : list (call T)).


Lemma exec_linked_plain (k : call T) s s' :
  plain k → sound s → linked (heap s) →
  attach_ok k s = true → exec k s = Some s' → linked (heap s').
Proof.
  intros Hk Hs Hl Hok Hex. pose proof Hs as [[Hh Hsl] Hg].
  destruct k as [v|v l r|n x|n x|n v|n v|n|n|n|n|n|p]; try done;
    cbn [exec attach_ok] in *.
  - rewrite createLeaf_fork in Hex.
    pose proof (linked_fork (heap s) v None None Hl) as Hf.
    destruct (fork v None None (heap s)) as [p h']. simplify_eq.
    apply Hf; try done.
    + by intros p' [?|?].
    + intros m Hm. apply Hsl in Hm. by rewrite not_live_length in Hm.
  - destruct (held_opt s l) eqn:El; [|done].
    destruct (held_opt s r) eqn:Er; [|done]. cbn [andb] in Hex.
    apply andb_true_iff in Hok as [Hok Hd].
    apply andb_true_iff in Hok as [Hdl Hdr].
    pose proof (linked_fork (heap s) v l r Hl) as Hf.
    destruct (fork v l r (heap s)) as [p h']. simplify_eq.
    apply Hf; try done; try by apply detached_unheld.
    + intros p' [Hp|Hp]; apply Hh;
        [ by apply (proj1 (held_opt_true s l) El)
        | by apply (proj1 (held_opt_true s r) Er) ].
    + intros m Hm. apply Hsl in Hm. by rewrite not_live_length in Hm.
  - destruct (held s n) eqn:En; [|done].
    destruct (held_opt s x) eqn:Ex; [|done]. cbn [andb] in Hex.
    pose proof (linked_replaceLeft (heap s) n x Hl) as Hf.
    destruct (replaceLeft n x (heap s)) as [old h']. simplify_eq.
    apply Hf; [by apply Hh, held_true | by apply detached_unheld].
  - destruct (held s n) eqn:En; [|done].
    destruct (held_opt s x) eqn:Ex; [|done]. cbn [andb] in Hex.
    pose proof (linked_replaceRight (heap s) n x Hl) as Hf.
    destruct (replaceRight n x (heap s)) as [old h']. simplify_eq.
    apply Hf; [by apply Hh, held_true | by apply detached_unheld].
  - destruct (held s n) eqn:En; [|done]. unfold removeLeft in Hex.
    pose proof (linked_replaceLeft (heap s) n None Hl) as Hf.
    destruct (replaceLeft n None (heap s)) as [old h']. simplify_eq.
    apply Hf; [by apply Hh, held_true | by intros ? ? ? ?].
  - destruct (held s n) eqn:En; [|done]. unfold removeRight in Hex.
    pose proof (linked_replaceRight (heap s) n None Hl) as Hf.
    destruct (replaceRight n None (heap s)) as [old h']. simplify_eq.
    apply Hf; [by apply Hh, held_true | by intros ? ? ? ?].
  - destruct (held s n); by simplify_eq.
  - destruct (held s n); by simplify_eq.
  - destruct (held s n); by simplify_eq.
  - destruct (held s p); [|done]. simplify_eq. by apply linked_drop.
Qed.

Lemma exec_linked (k : call T) s s' :
  sound s → linked (heap s) →
  attach_ok k s = true → exec k s = Some s' → linked (heap s').
Proof.
  intros Hs Hl Hok Hex.
  destruct k as [v|v l r|n x|n x|n v|n v|n|n|n|n|n|p];
    try (by eapply exec_linked_plain; [| | | |done]).
  - apply exec_replaceRightWithLeaf in Hex as (s1 & s2 & H1 & Ha & H2 & H3);
      [|done].
    assert (linked (heap s1)) by (by eapply exec_linked_plain; [| | | |done]).
    assert (sound s1) by (by eapply exec_sound).
    assert (linked (heap s2)) by (by eapply exec_linked_plain; [| | | |done]).
    assert (sound s2) by (by eapply exec_sound).
    by eapply exec_linked_plain; [| | | |done].
  - apply exec_replaceLeftWithLeaf in Hex as (s1 & s2 & H1 & Ha & H2 & H3);
      [|done].
    assert (linked (heap s1)) by (by eapply exec_linked_plain; [| | | |done]).
    assert (sound s1) by (by eapply exec_sound).
    assert (linked (heap s2)) by (by eapply exec_linked_plain; [| | | |done]).
    assert (sound s2) by (by eapply exec_sound).
    by eapply exec_linked_plain; [| | | |done].
Qed.

Lemma init_linked : linked (heap (@init T)).
Proof. split_and!; by intros. Qed.

Lemma run_ok_linked cs : ∀ s s',
  sound s → linked (heap s) → run_ok cs s = Some s' →
  sound s' ∧ linked (heap s').
Proof.
  induction cs as [|k cs IH]; intros s s' Hs Hl Hrun; simpl in Hrun.
  - by simplify_eq.
  - destruct (attach_ok k s) eqn:Hok; [|done].
    destruct (exec k s) as [s1|] eqn:Hex; [|done].
    eapply IH; [| |done]; [by eapply exec_sound | by eapply exec_linked].
Qed.

Lemma linked_consistent s :
  sound s → linked (heap s) → link_consistent (heap s).
Proof.
  intros [[_ Hsl] _] (L1 & _ & _) P C. split.
  - intros Hc. pose proof (Hsl _ _ Hc) as HC.
    apply is_live_Some in HC as [ndC HC].
    pose proof Hc as Hc'. apply holds_node in Hc' as (ndP & HP & Hslot).
    unfold getParent, lock. rewrite HC.
    rewrite (proj1 (L1 P C ndP ndC HP HC) Hslot).
    by rewrite (is_live_node _ _ _ HP).
  - unfold getParent, lock. intros Hp.
    destruct (node_at (heap s) C) as [ndC|] eqn:HC; [|done].
    destruct (parent ndC) as [P'|] eqn:Hpar; [|done].
    destruct (is_live (heap s) P') eqn:HP; [|done]. simplify_eq.
    apply is_live_Some in HP as [ndP HP].
    apply holds_node. exists ndP. split; [done|].
    by apply (L1 P C ndP ndC HP HC).
Qed.

Lemma sum_list_with_le_1 {A} (f : A → nat) (l : list A) :
  (∀ i a, l !! i = Some a → f a ≤ 1) →
  (∀ i j a b, l !! i = Some a → l !! j = Some b →
              0 < f a → 0 < f b → i = j) →
  sum_list_with f l ≤ 1.
Proof.
  induction l as [|a l IH]; intros Hle Huniq; simpl; [lia|].
  pose proof (Hle 0 a eq_refl) as Ha.
  destruct (decide (0 < f a)) as [Hpos|Hz].
  - assert (sum_list_with f l = 0); [|lia].
    destruct (decide (0 < sum_list_with f l)) as [Hs|]; [|lia].
    apply sum_list_with_pos in Hs as (j & b & Hj & Hb).
    by specialize (Huniq 0 (S j) a b eq_refl Hj Hpos Hb).
  - assert (sum_list_with f l ≤ 1); [|lia]. apply IH.
    + intros i a' Hi. by apply (Hle (S i)).
    + intros i j a' b Hi Hj Ha' Hb.
      by specialize (Huniq (S i) (S j) a' b Hi Hj Ha' Hb) as [= ->].
Qed.

Lemma linked_single_owner s :
  sound s → linked (heap s) → single_owner (heap s).
Proof.
  intros [[_ Hsl] _] (L1 & L2 & _) C. unfold incoming.
  apply sum_list_with_le_1.
  - intros i [nd|] Hi; simpl; [|lia]. apply node_at_Some in Hi.
    pose proof (L2 i nd C Hi). repeat case_decide; naive_solver lia.
  - intros i j [ndi|] [ndj|] Hi Hj Hpi Hpj; simpl in *; try lia.
    apply node_at_Some in Hi, Hj.
    assert (holds (heap s) i C) as Hci.
    { apply holds_node. exists ndi. split; [done|].
      repeat case_decide; try lia; tauto. }
    assert (left ndj = Some C ∨ right ndj = Some C) as Hcj.
    { repeat case_decide; try lia; tauto. }
    pose proof (Hsl _ _ Hci) as HC. apply is_live_Some in HC as [ndC HC].
    apply holds_node in Hci as (ndi' & Hi' & Hci). simplify_eq.
    apply (L1 i C ndi ndC Hi HC) in Hci.
    apply (L1 j C ndj ndC Hj HC) in Hcj. congruence.
Qed.

End Discipline.

(** * Back-references are matched by slots, discipline or not *)

Section Backed.
Context {T : Type}.
Implicit Types (s : State T) (h : list (cell T)) (nd : TNode T)
  (p q n m c : loc) (x l r w : option loc) (v : T) (cs : list (call T)).


Lemma backed_replaceLeft h n x :
  backed h → is_live h n = true → backed (snd (replaceLeft n x h)).
Proof.
  intros (B1 & B2) Hn. apply is_live_Some in Hn as [ndn Hn].
  assert (getLeft h n = left ndn) as Hgl by (unfold getLeft; by rewrite Hn).
  split.
  - intros P C ndP' ndC' HP HC. rewrite node_at_replaceLeft in HP, HC.
    rewrite Hgl in HC.
    destruct (node_at h P) as [ndP|] eqn:EP; [|done].
    destruct (node_at h C) as [ndC|] eqn:EC; [|done].
    simplify_eq/=.
    pose proof (B1 P C _ _ EP EC) as B1PC.
    repeat case_decide; simplify_eq; naive_solver.
  - intros C ndC' P HC. rewrite node_at_replaceLeft in HC.
    assert (length (snd (replaceLeft n x h)) = length h) as ->.
    { rewrite replaceLeft_eq; cbn [snd].
      by rewrite length_update, !length_setParent. }
    destruct (node_at h C) as [ndC|] eqn:EC; [|done].
    simplify_eq/=.
    pose proof (B2 C ndC P EC) as B2C.
    pose proof (node_at_lt _ _ _ Hn).
    repeat case_decide; naive_solver.
Qed.

Lemma backed_replaceRight h n x :
  backed h → is_live h n = true → backed (snd (replaceRight n x h)).
Proof.
  intros (B1 & B2) Hn. apply is_live_Some in Hn as [ndn Hn].
  assert (getRight h n = right ndn) as Hgl by (unfold getRight; by rewrite Hn).
  split.
  - intros P C ndP' ndC' HP HC. rewrite node_at_replaceRight in HP, HC.
    rewrite Hgl in HC.
    destruct (node_at h P) as [ndP|] eqn:EP; [|done].
    destruct (node_at h C) as [ndC|] eqn:EC; [|done].
    simplify_eq/=.
    pose proof (B1 P C _ _ EP EC) as B1PC.
    repeat case_decide; simplify_eq; naive_solver.
  - intros C ndC' P HC. rewrite node_at_replaceRight in HC.
    assert (length (snd (replaceRight n x h)) = length h) as ->.
    { rewrite replaceRight_eq; cbn [snd].
      by rewrite length_update, !length_setParent. }
    destruct (node_at h C) as [ndC|] eqn:EC; [|done].
    simplify_eq/=.
    pose proof (B2 C ndC P EC) as B2C.
    pose proof (node_at_lt _ _ _ Hn).
    repeat case_decide; naive_solver.
Qed.

Lemma backed_fork h v l r :
  backed h →
  (∀ p, l = Some p ∨ r = Some p → is_live h p = true) →
  backed (snd (fork v l r h)).
Proof.
  intros (B1 & B2) Hlive.
  assert (∀ p, l = Some p ∨ r = Some p → p ≠ length h) as Hne.
  { intros p Hp ->. apply Hlive in Hp. by rewrite not_live_length in Hp. }
  assert (l ≠ Some (length h)) as Hl0 by (intros ?; by eapply Hne; eauto).
  assert (r ≠ Some (length h)) as Hr0 by (intros ?; by eapply Hne; eauto).
  assert (length (snd (fork v l r h)) = S (length h)) as Hlen.
  { rewrite fork_eq; cbn [snd].
    rewrite !length_setParent, length_app. simpl. lia. }
  split.
  - intros P C ndP' ndC' HP HC. rewrite node_at_fork in HP, HC by done.
    destruct (decide (P = length h)) as [->|HPn];
      destruct (decide (C = length h)) as [->|HCn]; simplify_eq/=.
    + done.
    + destruct (node_at h C) as [ndC|] eqn:EC; [|done]. simplify_eq/=.
      pose proof (B2 C ndC (length h) EC).
      repeat case_decide; simplify_eq; naive_solver lia.
    + destruct (node_at h P) as [ndP|] eqn:EP; [|done]. by simplify_eq/=.
    + destruct (node_at h P) as [ndP|] eqn:EP; [|done].
      destruct (node_at h C) as [ndC|] eqn:EC; [|done]. simplify_eq/=.
      pose proof (B1 P C _ _ EP EC) as B1PC.
      repeat case_decide; simplify_eq; naive_solver.
  - intros C ndC' P HC. rewrite node_at_fork in HC by done. rewrite Hlen.
    destruct (decide (C = length h)) as [->|HCn]; simplify_eq/=; [done|].
    destruct (node_at h C) as [ndC|] eqn:EC; [|done]. simplify_eq/=.
    pose proof (B2 C ndC P EC) as B2C.
    repeat case_decide; naive_solver lia.
Qed.

Lemma backed_mono h h' :
  length h' = length h →
  (∀ q nd, node_at h' q = Some nd → node_at h q = Some nd) →
  backed h → backed h'.
Proof.
  intros Hlen Hsub (B1 & B2). split.
  - intros P C ndP ndC HP HC. apply Hsub in HP, HC. by apply B1.
  - intros C ndC P HC. apply Hsub in HC. rewrite Hlen. by eapply B2.
Qed.

Lemma backed_drop s p : sound s → backed (heap s) → backed (heap (drop p s)).
Proof.
  intros Hs Hb. destruct (drop_spec p s Hs) as (_ & _ & Hlen & Hsub).
  by eapply backed_mono.
Qed.

Lemma exec_backed_plain (k : call T) s s' :
  plain k → sound s → backed (heap s) →
  exec k s = Some s' → backed (heap s').
Proof.
  intros Hk Hs Hl Hex. pose proof Hs as [[Hh Hsl] Hg].
  destruct k as [v|v l r|n x|n x|n v|n v|n|n|n|n|n|p]; try done;
    cbn [exec] in *.
  - rewrite createLeaf_fork in Hex.
    pose proof (backed_fork (heap s) v None None Hl) as Hf.
    destruct (fork v None None (heap s)) as [p h']. simplify_eq.
    apply Hf. by intros p' [?|?].
  - destruct (held_opt s l) eqn:El; [|done].
    destruct (held_opt s r) eqn:Er; [|done]. cbn [andb] in Hex.
    pose proof (backed_fork (heap s) v l r Hl) as Hf.
    destruct (fork v l r (heap s)) as [p h']. simplify_eq.
    apply Hf. intros p' [Hp|Hp]; apply Hh;
      [ by apply (proj1 (held_opt_true s l) El)
      | by apply (proj1 (held_opt_true s r) Er) ].
  - destruct (held s n) eqn:En; [|done].
    destruct (held_opt s x) eqn:Ex; [|done]. cbn [andb] in Hex.
    pose proof (backed_replaceLeft (heap s) n x Hl) as Hf.
    destruct (replaceLeft n x (heap s)) as [old h']. simplify_eq.
    apply Hf. by apply Hh, held_true.
  - destruct (held s n) eqn:En; [|done].
    destruct (held_opt s x) eqn:Ex; [|done]. cbn [andb] in Hex.
    pose proof (backed_replaceRight (heap s) n x Hl) as Hf.
    destruct (replaceRight n x (heap s)) as [old h']. simplify_eq.
    apply Hf. by apply Hh, held_true.
  - destruct (held s n) eqn:En; [|done]. unfold removeLeft in Hex.
    pose proof (backed_replaceLeft (heap s) n None Hl) as Hf.
    destruct (replaceLeft n None (heap s)) as [old h']. simplify_eq.
    apply Hf. by apply Hh, held_true.
  - destruct (held s n) eqn:En; [|done]. unfold removeRight in Hex.
    pose proof (backed_replaceRight (heap s) n None Hl) as Hf.
    destruct (replaceRight n None (heap s)) as [old h']. simplify_eq.
    apply Hf. by apply Hh, held_true.
  - destruct (held s n); by simplify_eq.
  - destruct (held s n); by simplify_eq.
  - destruct (held s n); by simplify_eq.
  - destruct (held s p); [|done]. simplify_eq. by apply backed_drop.
Qed.

Lemma exec_backed (k : call T) s s' :
  sound s → backed (heap s) → exec k s = Some s' → backed (heap s').
Proof.
  intros Hs Hl Hex.
  destruct k as [v|v l r|n x|n x|n v|n v|n|n|n|n|n|p];
    try (by eapply exec_backed_plain; [| | |done]).
  - apply exec_replaceRightWithLeaf in Hex as (s1 & s2 & H1 & Ha & H2 & H3);
      [|done].
    assert (backed (heap s1)) by (by eapply exec_backed_plain; [| | |done]).
    assert (sound s1) by (by eapply exec_sound).
    assert (backed (heap s2)) by (by eapply exec_backed_plain; [| | |done]).
    assert (sound s2) by (by eapply exec_sound).
    by eapply exec_backed_plain; [| | |done].
  - apply exec_replaceLeftWithLeaf in Hex as (s1 & s2 & H1 & Ha & H2 & H3);
      [|done].
    assert (backed (heap s1)) by (by eapply exec_backed_plain; [| | |done]).
    assert (sound s1) by (by eapply exec_sound).
    assert (backed (heap s2)) by (by eapply exec_backed_plain; [| | |done]).
    assert (sound s2) by (by eapply exec_sound).
    by eapply exec_backed_plain; [| | |done].
Qed.

Lemma run_backed cs : ∀ s s',
  sound s → backed (heap s) → run cs s = Some s' →
  sound s' ∧ backed (heap s').
Proof.
  induction cs as [|k cs IH]; intros s s' Hs Hl Hrun; simpl in Hrun.
  - by simplify_eq.
  - destruct (exec k s) as [s1|] eqn:Hex; [|done].
    eapply IH; [| |done]; [by eapply exec_sound | by eapply exec_backed].
Qed.

Lemma init_backed : backed (heap (@init T)).
Proof. split; by intros. Qed.

Lemma backed_parent_holds h N P :
  backed h → getParent h N = Some P → holds h P N.
Proof.
  intros (B1 & _). unfold getParent, lock. intros Hp.
  destruct (node_at h N) as [ndN|] eqn:HN; [|done].
  destruct (parent ndN) as [P'|] eqn:Hpar; [|done].
  destruct (is_live h P') eqn:HP; [|done]. simplify_eq.
  apply is_live_Some in HP as [ndP HP].
  apply holds_node. exists ndP. split; [done|]. by eapply B1.
Qed.

Lemma hasParent_spec_getParent h N :
  hasParent_spec h N = true ↔ ∃ P, getParent h N = Some P.
Proof.
  unfold hasParent_spec.
  destruct (getParent h N); simpl; split; eauto; try done.
  by intros [? ?].
Qed.

End Backed.

(** * The last strong reference *)

Section Lifetime.
Context {T : Type}.
Implicit Types (s : State T) (h : list (cell T)) (nd : TNode T)
  (p q n m c : loc) (x l r w : option loc) (v : T) (cs : list (call T)).

Lemma handle_refs_remove_one p (hs : list loc) :
  p ∈ hs → handle_refs p (remove_one p hs) + 1 = handle_refs p hs.
Proof.
  unfold handle_refs. induction hs as [|a hs IH]; simpl.
  - intros Hin. by apply elem_of_nil in Hin.
  - intros Hin. destruct (decide (a = p)) as [->|Hne]; [lia|].
    simpl. rewrite decide_False by done.
    apply elem_of_cons in Hin as [?|Hin]; [congruence|].
    specialize (IH Hin). lia.
Qed.

Lemma holds_mono h h' n c :
  (∀ q nd, node_at h' q = Some nd → node_at h q = Some nd) →
  holds h' n c → holds h n c.
Proof.
  intros Hsub. rewrite !holds_node. intros (nd & Hn & Hc).
  exists nd. split; [by apply Hsub | done].
Qed.

(** Giving up the last strong reference destroys the node. *)
Lemma drop_last s p :
  sound s → p ∈ handles s → use_count s p = 1 →
  is_live (heap (drop p s)) p = false.
Proof.
  intros Hs Hin Hone.
  destruct (drop_spec p s Hs) as (Hs' & Hhs & _ & Hsub).
  pose proof (handle_refs_remove_one p (handles s) Hin) as Hrm.
  unfold use_count in Hone.
  destruct (is_live (heap (drop p s)) p) eqn:Hlive; [|done]. exfalso.
  apply (sound_live_iff _ _ Hs'), use_count_pos in Hlive as [Hp|[m Hm]].
  - rewrite Hhs in Hp. apply handle_refs_pos in Hp. lia.
  - apply (holds_mono _ _ _ _ Hsub) in Hm.
    assert (0 < incoming (heap s) p) by (apply incoming_pos; eauto). lia.
Qed.

(** ... and with it every node that has no owner outside it. *)
Lemma drop_doomed s p q :
  sound s → p ∈ handles s → use_count s p = 1 →
  doomed s p q →
  is_live (heap (drop p s)) q = false.
Proof.
  intros Hs Hin Hone Hq.
  destruct (drop_spec p s Hs) as (Hs' & Hhs & _ & Hsub).
  induction Hq as [|q Hnh Hown IH]; [by apply drop_last|].
  destruct (is_live (heap (drop p s)) q) eqn:Hlive; [|done]. exfalso.
  apply (sound_live_iff _ _ Hs'), use_count_pos in Hlive as [Hp|[m Hm]].
  - rewrite Hhs in Hp. by apply elem_of_remove_one in Hp.
  - pose proof (holds_live _ _ _ Hm) as Hmlive.
    apply (holds_mono _ _ _ _ Hsub) in Hm.
    rewrite (IH m Hm) in Hmlive. done.
Qed.

(** A cascade keeps the handles and only turns cells into tombstones. *)
Lemma release_handles f : ∀ x s, handles (release f x s) = handles s.
Proof.
  induction f as [|f IH]; intros x s; [done|].
  destruct x as [q|]; simpl; [|done].
  destruct (node_at (heap s) q); [|done]. case_decide; [|done].
  by rewrite !IH.
Qed.

Lemma release_sub f : ∀ x s q nd,
  node_at (heap (release f x s)) q = Some nd → node_at (heap s) q = Some nd.
Proof.
  induction f as [|f IH]; intros x s q nd; [done|].
  destruct x as [q'|]; simpl; [|done].
  destruct (node_at (heap s) q'); [|done]. case_decide; [|done].
  intros Hq. apply IH, IH in Hq. cbn [heap] in Hq.
  rewrite node_at_free in Hq. by case_decide.
Qed.

(** A cascade destroys only nodes that have no owner left: whatever was
    alive in [s] and is gone after the cascade is doomed. *)
Lemma release_frees_doomed s p f : ∀ x si,
  handles si = remove_one p (handles s) →
  (∀ q nd, node_at (heap si) q = Some nd → node_at (heap s) q = Some nd) →
  (∀ q, is_live (heap s) q = true → is_live (heap si) q = false →
        doomed s p q) →
  ∀ q, is_live (heap s) q = true →
       is_live (heap (release f x si)) q = false → doomed s p q.
Proof.
  induction f as [|f IH]; intros x si Hh Hsub Hinv; [done|].
  destruct x as [q'|]; simpl; [|done].
  destruct (node_at (heap si) q') as [nd|] eqn:Hq'; [|done].
  case_decide as Hz; [|done].
  apply use_count_zero in Hz.
  set (s1 := mkState (<[q' := Freed]> (heap si)) (handles si)).
  assert (∀ q nd', node_at (heap s1) q = Some nd' →
                   node_at (heap s) q = Some nd') as Hsub1.
  { intros q nd' Hq. cbn [s1 heap] in Hq. rewrite node_at_free in Hq.
    case_decide; [done|]. by apply Hsub. }
  assert (doomed s p q') as Hdq.
  { destruct (decide (q' = p)) as [->|Hne]; [apply doomed_root|].
    apply doomed_step.
    - intros Hin. apply Hz. left. rewrite Hh.
      by apply elem_of_remove_one.
    - intros m Hm. apply Hinv; [by eapply holds_live|].
      destruct (is_live (heap si) m) eqn:Hlive; [|done]. exfalso.
      apply is_live_Some in Hlive as [ndm Hndm].
      pose proof (Hsub _ _ Hndm) as Hndm0.
      apply Hz. right. exists m. apply holds_node. exists ndm.
      split; [done|]. apply holds_node in Hm as (nd0 & Hnd0 & Hc).
      by simplify_eq. }
  assert (∀ q, is_live (heap s) q = true → is_live (heap s1) q = false →
               doomed s p q) as Hinv1.
  { intros q Hq Hdead. cbn [s1 heap] in Hdead.
    destruct (decide (q = q')) as [->|Hne]; [done|].
    apply Hinv; [done|]. unfold is_live in *. rewrite node_at_free in Hdead.
    by rewrite decide_False in Hdead. }
  apply IH.
  - by rewrite release_handles.
  - intros q nd' Hq. apply Hsub1. by eapply release_sub.
  - by apply IH.
Qed.

Lemma drop_frees_doomed s p q :
  is_live (heap s) q = true → is_live (heap (drop p s)) q = false →
  doomed s p q.
Proof.
  unfold drop, reclaim.
  apply (release_frees_doomed s p); cbn [heap handles]; try done.
  intros q' Hl Hd. congruence.
Qed.

(** Giving up one of several strong references changes nothing in
    the store: while another handle or a child slot still names the node,
    [Drop] only forgets the handle. *)
Lemma drop_shared_handle s p :
  p ∈ handles s → 1 < use_count s p →
  drop p s = mkState (heap s) (remove_one p (handles s)).
Proof.
  intros Hin Hcnt. unfold drop, reclaim. cbn [release heap].
  destruct (node_at (heap s) p) as [nd|]; [|done].
  rewrite decide_False; [done|].
  unfold use_count in *. cbn [heap handles].
  pose proof (handle_refs_remove_one p (handles s) Hin). lia.
Qed.

(** A back-reference names [p] exactly when some live node has [p] in its
    [parent] member. *)
Lemma weak_refs_pos h p :
  0 < weak_refs h p ↔ ∃ c nd, node_at h c = Some nd ∧ parent nd = Some p.
Proof.
  unfold weak_refs. rewrite sum_list_with_pos. split.
  - intros (i & a & Hi & Hpos). destruct a as [nd|]; [|lia].
    destruct (decide (parent nd = Some p)); [|lia].
    exists i, nd. split; [by apply node_at_Some | done].
  - intros (c & nd & Hc & Hp). exists c, (Live nd).
    split; [by apply node_at_Some|]. rewrite decide_True; [lia | done].
Qed.

End Lifetime.

(** * Properties of every reachable state *)

Section Claims.
Context {T : Type}.
Implicit Types (s : State T) (h : list (cell T)) (nd : TNode T)
  (p q n m c : loc) (x l r w : option loc) (v : T) (cs : list (call T)).

(** C1.  After every sequence of calls, a back-reference that resolves
    names a node that holds the referring node in its left or right slot;
    in particular a node with [hasParent_spec] true is the left or the
    right child of its [getParent()].  After every sequence of calls that keeps
    the attachment discipline the converse holds too: [P] holds [C] if
    and only if the back-reference of [C] resolves to [P]. *)
Theorem link_consistency :
  (∀ cs s, run cs init = Some s →
     ∀ N P, getParent (heap s) N = Some P → holds (heap s) P N) ∧
  (∀ cs s, run cs init = Some s →
     ∀ N, hasParent_spec (heap s) N = true →
       ∃ P, getParent (heap s) N = Some P ∧
            (getLeft (heap s) P = Some N ∨ getRight (heap s) P = Some N)) ∧
  (∀ cs s, run_ok cs init = Some s → link_consistent (heap s)).
Proof.
  split_and!.
  - intros cs s Hrun N P Hp.
    destruct (run_backed cs _ _ init_sound init_backed Hrun) as [_ Hb].
    by eapply backed_parent_holds.
  - intros cs s Hrun N HN.
    destruct (run_backed cs _ _ init_sound init_backed Hrun) as [_ Hb].
    apply hasParent_spec_getParent in HN as [P HP]. exists P. split; [done|].
    by apply (backed_parent_holds _ _ _ Hb HP).
  - intros cs s Hrun.
    destruct (run_ok_linked cs _ _ init_sound init_linked Hrun) as [Hs Hl].
    by apply linked_consistent.
Qed.

(** C3.  After every sequence of calls that keeps the attachment
    discipline, every node has at most one strong incoming link: the
    child slots of the store name it at most once, two nodes that hold
    the same child are one node, and no node has the same child in both
    slots.  The methods themselves sever nothing: [replaceLeft],
    [replaceRight] and [fork] leave the slots of every node other than
    the receiver (for [fork], the new node) as they were. *)
Theorem single_strong_owner :
  (∀ cs s, run_ok cs init = Some s →
     single_owner (heap s) ∧
     (∀ P Q C, holds (heap s) P C → holds (heap s) Q C → P = Q) ∧
     (∀ P C, getLeft (heap s) P = Some C → getRight (heap s) P ≠ Some C)) ∧
  (∀ h n x m c, m ≠ n →
     (holds (snd (replaceLeft n x h)) m c ↔ holds h m c) ∧
     (holds (snd (replaceRight n x h)) m c ↔ holds h m c)) ∧
  (∀ h v l r m c, m ≠ length h →
     holds (snd (fork v l r h)) m c ↔ holds h m c).
Proof.
  split_and!.
  - intros cs s Hrun.
    destruct (run_ok_linked cs _ _ init_sound init_linked Hrun) as [Hs Hl].
    split_and!.
    + by apply linked_single_owner.
    + intros P Q C HP HQ.
      pose proof (linked_consistent s Hs Hl) as Hc.
      apply Hc in HP, HQ. congruence.
    + intros P C HlP HrP. destruct Hl as (_ & L2 & _).
      unfold getLeft, getRight in *.
      destruct (node_at (heap s) P) as [ndP|] eqn:EP; [|done].
      by apply (L2 P ndP C EP).
  - intros h n x m c Hne. rewrite holds_replaceLeft, holds_replaceRight.
    split; (split; [by intros [[_ ?]|[? _]] | by left]).
  - intros h v l r m c Hne. rewrite holds_fork.
    split; [by intros [[? _]|[_ ?]] | by right].
Qed.

(** C10.  After every sequence of calls a node is alive exactly when its
    use count is positive, and the use count counts the handles of the
    caller and the child slots of live nodes only: writing a
    back-reference changes no use count.  Giving up a handle that is not
    the last strong reference destroys nothing.  Giving up the last strong
    reference to a node destroys the node in that call, and with it
    exactly the nodes that are left without an owner: the nodes that no
    handle names and whose slot owners are, in turn, all destroyed.  A
    node on or behind a cycle of strong links is not among them.  A
    destroyed node is not yet deallocated: its storage is held for as long
    as the back-reference of a live node names it. *)
Theorem strong_references_decide_lifetime cs s :
  run cs init = Some s →
  (∀ p, is_live (heap s) p = true ↔ 0 < use_count s p) ∧
  (∀ p x w,
     use_count (mkState (setParent x w (heap s)) (handles s)) p
     = use_count s p) ∧
  (∀ p s', exec (Drop p) s = Some s' → 1 < use_count s p →
     heap s' = heap s) ∧
  (∀ p s', exec (Drop p) s = Some s' → use_count s p = 1 →
     is_live (heap s') p = false ∧
     (∀ q, doomed s p q → is_live (heap s') q = false) ∧
     (∀ q, is_live (heap s) q = true → is_live (heap s') q = false →
           doomed s p q) ∧
     (storage_held (heap s') p = true ↔
      ∃ c nd, node_at (heap s') c = Some nd ∧ parent nd = Some p)).
Proof.
  intros Hrun. pose proof (run_sound cs _ _ init_sound Hrun) as Hs.
  split_and!.
  - intros p. by apply sound_live_iff.
  - intros p x w. unfold use_count; cbn [heap handles].
    by rewrite incoming_setParent.
  - intros p s' Hex Hmany. cbn [exec] in Hex.
    destruct (held s p) eqn:Hp; [|done]. simplify_eq.
    rewrite drop_shared_handle; [done | by apply held_true | done].
  - intros p s' Hex Hone. cbn [exec] in Hex.
    destruct (held s p) eqn:Hp; [|done]. apply held_true in Hp.
    simplify_eq. pose proof (drop_last s p Hs Hp Hone) as Hdead.
    split_and!; [done | | |].
    + intros q Hq. by apply drop_doomed.
    + intros q Hq Hq'. by apply drop_frees_doomed.
    + unfold storage_held. rewrite Hdead. cbn [orb].
      rewrite bool_decide_eq_true. apply weak_refs_pos.
Qed.

(** [getParent] is empty for a node without a parent and for a node whose
    parent has been destroyed, and for nothing else on a live node. *)
Lemma getParent_absent h n nd :
  node_at h n = Some nd →
  getParent h n = None ↔
  parent nd = None ∨ ∃ p, parent nd = Some p ∧ is_live h p = false.
Proof.
  intros Hn. unfold getParent, lock. rewrite Hn.
  destruct (parent nd) as [p|]; [|by split; [left|]].
  destruct (is_live h p) eqn:Hp.
  - split; [done|]. intros [?|(p' & ? & ?)]; simplify_eq. congruence.
  - split; [|done]. intros _. right. by exists p.
Qed.

End Claims.

(** * Concrete instances *)

Section Instances.

(** C1, as stated, fails: after [a = createLeaf(1)],
    [r = fork(0, a, nullptr)], [r->replaceLeft(a)] the node [r] holds [a]
    in its left slot and the back-reference of [a] is empty. *)
Lemma link_consistency_counterexample :
  run own_child_calls init = Some own_child_state ∧
  getLeft (heap own_child_state) 1 = Some 0 ∧
  getParent (heap own_child_state) 0 = None ∧
  ¬ link_consistent (heap own_child_state).
Proof.
  split_and!; try reflexivity.
  intros Hc. specialize (Hc 1 0). destruct Hc as [Hc _].
  discriminate Hc. by left.
Qed.

Lemma link_consistency_witness :
  run tree_calls init = Some tree_state ∧
  run_ok tree_calls init = Some tree_state ∧
  hasParent_spec (heap tree_state) 3 = true ∧
  (∃ P, getParent (heap tree_state) 3 = Some P ∧
        (getLeft (heap tree_state) P = Some 3 ∨
         getRight (heap tree_state) P = Some 3)) ∧
  link_consistent (heap tree_state).
Proof.
  pose proof (@link_consistency Z) as (_ & H2 & H3).
  split_and!;
    [ reflexivity | reflexivity | reflexivity
    | exact (H2 tree_calls tree_state eq_refl 3 eq_refl)
    | exact (H3 tree_calls tree_state eq_refl) ].
Defined.

(** C3, as stated, fails: after [a = createLeaf(1)],
    [fork(0, a, nullptr)], [fork(5, a, nullptr)] two nodes hold [a], and
    the second [fork] has not touched the slot of the first. *)
Lemma single_strong_owner_counterexample :
  run shared_leaf_calls init = Some shared_leaf_state ∧
  getLeft (heap shared_leaf_state) 1 = Some 0 ∧
  getLeft (heap shared_leaf_state) 2 = Some 0 ∧
  incoming (heap shared_leaf_state) 0 = 2 ∧
  ¬ single_owner (heap shared_leaf_state).
Proof.
  split_and!; try reflexivity.
  intros Hc. specialize (Hc 0). vm_compute in Hc. lia.
Qed.

Lemma single_strong_owner_witness :
  run_ok tree_calls init = Some tree_state ∧
  single_owner (heap tree_state) ∧
  (∀ P Q C, holds (heap tree_state) P C → holds (heap tree_state) Q C →
            P = Q) ∧
  (∀ P C, getLeft (heap tree_state) P = Some C →
          getRight (heap tree_state) P ≠ Some C) ∧
  2 ≠ 3 ∧
  (holds (snd (replaceLeft 3 (Some 0) sample_store)) 2 0
   ↔ holds sample_store 2 0).
Proof.
  pose proof (@single_strong_owner Z) as (H1 & H2 & _).
  destruct (H1 tree_calls tree_state eq_refl) as (Ha & Hb & Hc).
  assert (2 ≠ 3) as Hne by lia.
  split_and!; [reflexivity | exact Ha | exact Hb | exact Hc | exact Hne |].
  exact (proj1 (H2 sample_store 3 (Some 0) 2 0 Hne)).
Defined.

Lemma strong_references_decide_lifetime_witness :
  run drop_root_calls init = Some drop_root_state ∧
  exec (Drop 2) drop_root_state = Some (drop 2 drop_root_state) ∧
  use_count drop_root_state 2 = 1 ∧
  doomed drop_root_state 2 1 ∧
  is_live (heap drop_root_state) 1 = true ∧
  is_live (heap (drop 2 drop_root_state)) 2 = false ∧
  is_live (heap (drop 2 drop_root_state)) 1 = false ∧
  is_live (heap drop_root_state) 0 = true ∧
  is_live (heap (drop 2 drop_root_state)) 0 = true ∧
  ¬ doomed drop_root_state 2 0 ∧
  storage_held (heap (drop 2 drop_root_state)) 2 = true ∧
  exec (Drop 0) drop_root_state = Some (drop 0 drop_root_state) ∧
  1 < use_count drop_root_state 0 ∧
  heap (drop 0 drop_root_state) = heap drop_root_state ∧
  (∀ p, is_live (heap drop_root_state) p = true
        ↔ 0 < use_count drop_root_state p).
Proof.
  pose proof (@strong_references_decide_lifetime Z drop_root_calls
                drop_root_state eq_refl) as (H1 & _ & H3 & H4).
  assert (doomed drop_root_state 2 1) as Hd.
  { apply doomed_step.
    - intros Hin. vm_compute in Hin.
      repeat (apply elem_of_cons in Hin as [Hin|Hin]; [discriminate Hin|]).
      by apply elem_of_nil in Hin.
    - intros m Hm. destruct m as [|[|[|m]]];
        [ by destruct Hm | by destruct Hm | apply doomed_root
        | by destruct Hm ]. }
  assert (1 < use_count drop_root_state 0) as Hmany by (vm_compute; lia).
  destruct (H4 2 (drop 2 drop_root_state) eq_refl eq_refl)
    as (H4a & H4b & H4c & H4d).
  assert (¬ doomed drop_root_state 2 0) as Hn.
  { intros Hq. by pose proof (H4b 0 Hq). }
  split_and!;
    [ reflexivity | reflexivity | reflexivity | exact Hd | reflexivity
    | exact H4a | exact (H4b 1 Hd) | reflexivity | reflexivity | exact Hn
    | apply (proj2 H4d); by exists 0, (mkTNode 1%Z None None (Some 2))
    | reflexivity | exact Hmany
    | exact (H3 0 (drop 0 drop_root_state) eq_refl Hmany)
    | exact H1 ].
Defined.

(** C10, as stated, fails.  Behind a strong cycle: after
    [a = createLeaf(1)], [a->replaceLeft(a)], [root = fork(0, a, nullptr)]
    and the end of the caller's handle to [a], the node [a] is reached
    from the caller only through [root]; giving up the last reference to
    [root] destroys [root] and leaves [a] alive with no handle left.  And
    destroyed is not deallocated: after [root = fork(0, a, b)] the caller
    who keeps [a] and gives up [root] has destroyed [root], but the
    back-reference of [a] still names it, so its storage is held. *)
Lemma strong_references_decide_lifetime_counterexample :
  run cycle_calls init = Some cycle_state ∧
  handles cycle_state = [1] ∧
  use_count cycle_state 1 = 1 ∧
  getLeft (heap cycle_state) 1 = Some 0 ∧
  (∀ m, holds (heap cycle_state) m 0 → m = 1 ∨ m = 0) ∧
  exec (Drop 1) cycle_state = Some (drop 1 cycle_state) ∧
  handles (drop 1 cycle_state) = [] ∧
  is_live (heap (drop 1 cycle_state)) 1 = false ∧
  is_live (heap (drop 1 cycle_state)) 0 = true ∧
  run drop_root_calls init = Some drop_root_state ∧
  use_count drop_root_state 2 = 1 ∧
  exec (Drop 2) drop_root_state = Some (drop 2 drop_root_state) ∧
  is_live (heap (drop 2 drop_root_state)) 2 = false ∧
  weak_refs (heap (drop 2 drop_root_state)) 2 = 1 ∧
  storage_held (heap (drop 2 drop_root_state)) 2 = true.
Proof.
  split_and!; try reflexivity.
  intros m Hm. destruct m as [|[|m]]; [by right | by left |].
  by destruct Hm.
Qed.

Lemma replace_protocol_witness :
  is_live sample_store 2 = true ∧
  is_live sample_store 3 = true ∧
  getLeft sample_store 2 ≠ Some 3 ∧
  getLeft sample_store 2 = Some 0 ∧
  Some 3 ≠ Some 1 ∧ getLeft sample_store 2 ≠ Some 1 ∧
  fst (replaceLeft 2 (Some 3) sample_store) = Some 0 ∧
  getLeft (snd (replaceLeft 2 (Some 3) sample_store)) 2 = Some 3 ∧
  getParent (snd (replaceLeft 2 (Some 3) sample_store)) 3 = Some 2 ∧
  getParent (snd (replaceLeft 2 (Some 3) sample_store)) 0 = None ∧
  getParent (snd (replaceLeft 2 (Some 3) sample_store)) 1
  = getParent sample_store 1 ∧
  fst (replaceRight 2 (Some 3) sample_store) = Some 1 ∧
  getRight (snd (replaceRight 2 (Some 3) sample_store)) 2 = Some 3.
Proof.
  pose proof (replace_protocol sample_store 2 (Some 3))
    as (_ & _ & H3 & H4 & H5 & H6 & H7 & _ & H9).
  destruct (H5 eq_refl) as [H5l H5r].
  assert (getLeft sample_store 2 ≠ Some 3) as Ha by (intros [=]).
  assert (Some 3 ≠ Some 1) as Hb by congruence.
  assert (getLeft sample_store 2 ≠ Some 1) as Hc by (intros [=]).
  split_and!;
    [ reflexivity | reflexivity | exact Ha | reflexivity | exact Hb | exact Hc
    | exact H3 | exact H5l
    | exact (proj1 (H6 eq_refl 3 eq_refl eq_refl) Ha)
    | exact (H7 0 eq_refl)
    | exact (proj1 (H9 1 Hb) Hc)
    | exact H4 | exact H5r ].
Defined.

Lemma fork_links_witness :
  (∀ c, Some 3 = Some c ∨ @None nat = Some c →
        is_live sample_store c = true) ∧
  getLeft (snd (fork 9%Z (Some 3) None sample_store)) 4 = Some 3 ∧
  getParent (snd (fork 9%Z (Some 3) None sample_store)) 3 = Some 4 ∧
  getParent (snd (fork 9%Z (Some 3) None sample_store)) 4 = None.
Proof.
  assert (∀ c, Some 3 = Some c ∨ @None nat = Some c →
               is_live sample_store c = true) as Hl.
  { intros c [[= <-]|[=]]. reflexivity. }
  pose proof (proj2 (@fork_links Z) sample_store 9%Z (Some 3) None Hl)
    as (_ & _ & H3 & _ & H5 & H6).
  split_and!; [exact Hl | exact H3 | | exact H5].
  exact (H6 3 (or_introl eq_refl)).
Defined.

Lemma replaceLeft_round_trip_witness :
  getLeft sample_store 2 = Some 0 ∧
  is_live sample_store 3 = true ∧
  (let '(old, h1) := replaceLeft 2 (Some 3) sample_store in
   let '(back, h2) := replaceLeft 2 old h1 in
   old = Some 0 ∧ back = Some 3 ∧ getLeft h2 2 = old ∧
   is_live h2 3 = true ∧ getParent h2 3 = None).
Proof.
  split; [reflexivity|]. split; [reflexivity|].
  exact (replaceLeft_round_trip sample_store 2 0 3 eq_refl eq_refl).
Defined.

Lemma replaceLeft_own_child_witness :
  getLeft sample_store 2 = Some 0 ∧
  is_live sample_store 0 = true ∧
  (let '(ret, h') := replaceLeft 2 (Some 0) sample_store in
   ret = Some 0 ∧ getLeft h' 2 = Some 0 ∧ is_live h' 0 = true ∧
   getParent h' 0 = None).
Proof.
  split; [reflexivity|]. split; [reflexivity|].
  exact (replaceLeft_own_child sample_store 2 0 eq_refl eq_refl).
Defined.

Lemma remove_is_replace_absent_witness :
  is_live sample_store 2 = true ∧
  getLeft sample_store 2 = Some 0 ∧
  fst (removeLeft 2 sample_store) = Some 0 ∧
  getLeft (snd (removeLeft 2 sample_store)) 2 = None ∧
  getRight (snd (removeLeft 2 sample_store)) 2 = Some 1 ∧
  getParent (snd (removeLeft 2 sample_store)) 0 = None.
Proof.
  pose proof (remove_is_replace_absent sample_store 2)
    as (_ & _ & _ & H4 & _ & H6 & H7 & _).
  destruct (H6 eq_refl) as (H8 & H9 & _).
  split_and!;
    [reflexivity | reflexivity | exact H4 | exact H8 | exact H9 |].
  exact (H7 0 eq_refl).
Defined.

Lemma createLeaf_fresh_witness :
  3 ≠ 4 ∧
  sample_store !! 4 = None ∧
  getValue (snd (createLeaf 8%Z sample_store)) 4 = Some 8%Z ∧
  getParent (snd (createLeaf 8%Z sample_store)) 4 = None ∧
  snd (createLeaf 8%Z sample_store) !! 3 = sample_store !! 3.
Proof.
  pose proof (createLeaf_fresh 8%Z sample_store) as H.
  cbv beta iota zeta delta [createLeaf make_shared] in H.
  destruct H as (H1 & _ & H3 & _ & _ & H6 & H8).
  assert (3 ≠ 4) as Hne by lia.
  split_and!; [exact Hne | exact H1 | exact H3 | exact H6 |].
  exact (H8 3 Hne).
Defined.

End Instances.

(** * Further properties of the methods *)

Section MoreMethods.
Context {T : Type}.
Implicit Types (h : list (cell T)) (nd : TNode T) (p q n c y : loc)
  (x l r : option loc) (v : T).

(** Reading a cell after a write, tombstones included. *)
Lemma lookup_update h p f q :
  update p f h !! q =
  on_live (λ nd, if decide (p = q) then f nd else nd) <$> h !! q.
Proof.
  unfold update. destruct (decide (p = q)) as [->|Hne].
  - rewrite list_lookup_alter_eq. by destruct (h !! q) as [[?|]|].
  - rewrite list_lookup_alter_ne by done. by destruct (h !! q) as [[?|]|].
Qed.

Lemma lookup_setParent h x w q :
  setParent x w h !! q =
  on_live (λ nd, if decide (x = Some q) then with_parent w nd else nd)
    <$> h !! q.
Proof.
  destruct x as [n|]; simpl.
  - rewrite lookup_update. destruct (h !! q) as [[?|]|]; simpl; try done.
    destruct (decide (n = q)), (decide (Some n = Some q)); congruence.
  - by destruct (h !! q) as [[?|]|].
Qed.

(** X1.  [replaceLeftWithLeaf v] on a live node puts a new leaf holding [v]
    into the left slot and returns the child the slot held: the leaf is at
    an address that named nothing before, has no children, and its parent
    is the receiver; the returned child has no parent; the right slot and
    the value of the receiver are as before.  (The slot must not dangle,
    as it never does in a state the calls can reach.) *)
Theorem replaceLeftWithLeaf_installs h n v :
  is_live h n = true →
  (∀ c, getLeft h n = Some c → is_live h c = true) →
  let '(old, h') := replaceLeftWithLeaf n v h in
  let lf := length h in
  old = getLeft h n ∧
  h !! lf = None ∧
  getLeft h' n = Some lf ∧ hasLeft h' n = true ∧
  getValue h' lf = Some v ∧
  hasLeft h' lf = false ∧ hasRight h' lf = false ∧
  getParent h' lf = Some n ∧
  getRight h' n = getRight h n ∧
  getValue h' n = getValue h n ∧
  (∀ c, old = Some c → getParent h' c = None).
Proof.
  intros Hn Hslot. apply is_live_Some in Hn as [ndn Hn].
  pose proof (node_at_lt _ _ _ Hn) as Hlt.
  assert (getLeft h n ≠ Some (length h)) as Hfresh.
  { intros Hc. apply Hslot in Hc. by rewrite not_live_length in Hc. }
  clear Hslot.
  unfold replaceLeftWithLeaf, createLeaf, make_shared.
  rewrite replaceLeft_eq. cbv zeta.
  assert (getLeft (h ++ [Live (mkTNode v None None None)]) n = getLeft h n)
    as ->.
  { unfold getLeft. rewrite node_at_make_shared. by rewrite decide_False by lia. }
  split; [done|]. split; [apply lookup_ge_None_2; lia|].
  split_and!; try (intros c Hc);
    unfold hasLeft, hasRight, getValue, getParent, getLeft, getRight,
      lock, is_live in *;
    store_cases; try lia; done.
Qed.

(** X2.  [replaceRightWithLeaf v], the same on the right slot. *)
Theorem replaceRightWithLeaf_installs h n v :
  is_live h n = true →
  (∀ c, getRight h n = Some c → is_live h c = true) →
  let '(old, h') := replaceRightWithLeaf n v h in
  let lf := length h in
  old = getRight h n ∧
  h !! lf = None ∧
  getRight h' n = Some lf ∧ hasRight h' n = true ∧
  getValue h' lf = Some v ∧
  hasLeft h' lf = false ∧ hasRight h' lf = false ∧
  getParent h' lf = Some n ∧
  getLeft h' n = getLeft h n ∧
  getValue h' n = getValue h n ∧
  (∀ c, old = Some c → getParent h' c = None).
Proof.
  intros Hn Hslot. apply is_live_Some in Hn as [ndn Hn].
  pose proof (node_at_lt _ _ _ Hn) as Hlt.
  assert (getRight h n ≠ Some (length h)) as Hfresh.
  { intros Hc. apply Hslot in Hc. by rewrite not_live_length in Hc. }
  clear Hslot.
  unfold replaceRightWithLeaf, createLeaf, make_shared.
  rewrite replaceRight_eq. cbv zeta.
  assert (getRight (h ++ [Live (mkTNode v None None None)]) n = getRight h n)
    as ->.
  { unfold getRight. rewrite node_at_make_shared. by rewrite decide_False by lia. }
  split; [done|]. split; [apply lookup_ge_None_2; lia|].
  split_and!; try (intros c Hc);
    unfold hasLeft, hasRight, getValue, getParent, getLeft, getRight,
      lock, is_live in *;
    store_cases; try lia; done.
Qed.

(** X3.  The round trip on the right slot: replacing the right child [c]
    of [n] by [y] and putting the returned child back restores the slot,
    hands [y] back, and leaves [y] without a parent. *)
Theorem replaceRight_round_trip h n c y :
  getRight h n = Some c →
  is_live h y = true →
  let '(old, h1) := replaceRight n (Some y) h in
  let '(back, h2) := replaceRight n old h1 in
  old = Some c ∧
  back = Some y ∧
  getRight h2 n = old ∧
  getLeft h2 n = getLeft h n ∧
  is_live h2 y = true ∧
  getParent h2 y = None.
Proof.
  intros Hl Hy. apply is_live_Some in Hy as [ndy Hy].
  store_unfold. store_cases; done.
Qed.

(** X4.  Handing a node its own current right child clears the child's
    back-reference and leaves it in the slot. *)
Theorem replaceRight_own_child h n c :
  getRight h n = Some c →
  is_live h c = true →
  let '(ret, h') := replaceRight n (Some c) h in
  ret = Some c ∧
  getRight h' n = Some c ∧
  is_live h' c = true ∧
  getParent h' c = None.
Proof.
  intros Hl Hc. store_unfold. store_cases; done.
Qed.

Lemma update_id h n f :
  (∀ nd, node_at h n = Some nd → f nd = nd) → update n f h = h.
Proof.
  intros Hf. apply list_eq. intros q. rewrite lookup_update.
  destruct (h !! q) as [[nd|]|] eqn:Hq; simpl; try done.
  case_decide; [|done]. subst q. f_equal. f_equal. apply Hf.
  by apply node_at_Some.
Qed.

(** X5.  Removing from an empty slot does nothing: the call returns the
    null pointer and the store is the one it started from.  So a second
    [removeLeft] (or [removeRight]) after a first one is always such a
    call. *)
Theorem remove_empty_slot h n :
  (getLeft h n = None → removeLeft n h = (None, h)) ∧
  (getRight h n = None → removeRight n h = (None, h)) ∧
  removeLeft n (snd (removeLeft n h)) = (None, snd (removeLeft n h)) ∧
  removeRight n (snd (removeRight n h)) = (None, snd (removeRight n h)).
Proof.
  assert (∀ h', getLeft h' n = None → removeLeft n h' = (None, h')) as HL.
  { intros h' Hl. unfold removeLeft. rewrite replaceLeft_eq, Hl. simpl.
    f_equal. apply update_id. intros [v l r p] Hn.
    unfold getLeft in Hl. rewrite Hn in Hl. simpl in Hl. by subst l. }
  assert (∀ h', getRight h' n = None → removeRight n h' = (None, h')) as HR.
  { intros h' Hl. unfold removeRight. rewrite replaceRight_eq, Hl. simpl.
    f_equal. apply update_id. intros [v l r p] Hn.
    unfold getRight in Hl. rewrite Hn in Hl. simpl in Hl. by subst r. }
  split_and!; [apply HL | apply HR | apply HL | apply HR].
  - unfold removeLeft. rewrite replaceLeft_eq. cbn [snd].
    unfold getLeft. rewrite node_at_update, !node_at_setParent.
    destruct (node_at h n); simpl; [|done]. by rewrite decide_True.
  - unfold removeRight. rewrite replaceRight_eq. cbn [snd].
    unfold getRight. rewrite node_at_update, !node_at_setParent.
    destruct (node_at h n); simpl; [|done]. by rewrite decide_True.
Qed.

Lemma getLeft_update_ne h n f q :
  q ≠ n → getLeft (update n f h) q = getLeft h q.
Proof.
  intros Hq. unfold getLeft. rewrite node_at_update.
  destruct (node_at h q); simpl; [|done]. by rewrite decide_False.
Qed.

Lemma getRight_update_ne h n f q :
  q ≠ n → getRight (update n f h) q = getRight h q.
Proof.
  intros Hq. unfold getRight. rewrite node_at_update.
  destruct (node_at h q); simpl; [|done]. by rewrite decide_False.
Qed.

(** X6.  What [replaceLeft] leaves alone: it allocates and destroys
    nothing, changes no value and no right slot, changes the left slot of
    the receiver only, and a cell that is neither the receiver, the new
    child nor the evicted child is exactly as it was.  [replaceRight]
    likewise with the sides exchanged. *)
Theorem replace_frame h n x :
  (let h' := snd (replaceLeft n x h) in
   length h' = length h ∧
   (∀ q, is_live h' q = is_live h q) ∧
   (∀ q, getValue h' q = getValue h q) ∧
   (∀ q, getRight h' q = getRight h q) ∧
   (∀ q, q ≠ n → getLeft h' q = getLeft h q) ∧
   (∀ q, q ≠ n → x ≠ Some q → getLeft h n ≠ Some q → h' !! q = h !! q)) ∧
  (let h' := snd (replaceRight n x h) in
   length h' = length h ∧
   (∀ q, is_live h' q = is_live h q) ∧
   (∀ q, getValue h' q = getValue h q) ∧
   (∀ q, getLeft h' q = getLeft h q) ∧
   (∀ q, q ≠ n → getRight h' q = getRight h q) ∧
   (∀ q, q ≠ n → x ≠ Some q → getRight h n ≠ Some q → h' !! q = h !! q)).
Proof.
  split; cbv zeta.
  - rewrite replaceLeft_eq; cbn [snd]. split_and!.
    + by rewrite length_update, !length_setParent.
    + intros q. by rewrite is_live_update, !is_live_setParent.
    + intros q. unfold getValue. rewrite node_at_update, !node_at_setParent.
      destruct (node_at h q); simpl; [|done]. by repeat case_decide.
    + intros q. unfold getRight. rewrite node_at_update, !node_at_setParent.
      destruct (node_at h q); simpl; [|done]. by repeat case_decide.
    + intros q Hq. rewrite getLeft_update_ne by done.
      by rewrite !getLeft_setParent.
    + intros q Hq Hx Ho. rewrite lookup_update, !lookup_setParent.
      destruct (h !! q) as [[nd|]|]; simpl; try done.
      by rewrite !decide_False.
  - rewrite replaceRight_eq; cbn [snd]. split_and!.
    + by rewrite length_update, !length_setParent.
    + intros q. by rewrite is_live_update, !is_live_setParent.
    + intros q. unfold getValue. rewrite node_at_update, !node_at_setParent.
      destruct (node_at h q); simpl; [|done]. by repeat case_decide.
    + intros q. unfold getLeft. rewrite node_at_update, !node_at_setParent.
      destruct (node_at h q); simpl; [|done]. by repeat case_decide.
    + intros q Hq. rewrite getRight_update_ne by done.
      by rewrite !getRight_setParent.
    + intros q Hq Hx Ho. rewrite lookup_update, !lookup_setParent.
      destruct (h !! q) as [[nd|]|]; simpl; try done.
      by rewrite !decide_False.
Qed.

End MoreMethods.

Section MoreMethods2.
Context {T : Type}.
Implicit Types (h : list (cell T)) (nd : TNode T) (p q n c y : loc)
  (x l r : option loc) (v : T).

Lemma lookup_make_shared_lt h nd q :
  q < length h → (h ++ [Live nd]) !! q = h !! q.
Proof. intros Hq. by rewrite lookup_app_l. Qed.

(** X7.  What [fork] leaves alone: it allocates exactly one cell and
    destroys none, and in every cell that existed before it changes no
    value and no slot; a cell that is not one of the supplied children is
    exactly as it was. *)
Theorem fork_frame h v l r :
  let '(ptr, h') := fork v l r h in
  ptr = length h ∧
  length h' = S (length h) ∧
  (∀ q, q < length h →
     is_live h' q = is_live h q ∧
     getValue h' q = getValue h q ∧
     getLeft h' q = getLeft h q ∧
     getRight h' q = getRight h q) ∧
  (∀ q, q < length h → l ≠ Some q → r ≠ Some q → h' !! q = h !! q).
Proof.
  rewrite fork_eq. split; [done|]. split_and!.
  - rewrite !length_setParent, length_app. simpl. lia.
  - intros q Hq. rewrite !is_live_setParent, !getLeft_setParent,
      !getRight_setParent.
    unfold is_live, getValue, getLeft, getRight.
    rewrite !node_at_setParent, !node_at_make_shared.
    rewrite !decide_False by lia.
    destruct (node_at h q); simpl; [|done]. by repeat case_decide.
  - intros q Hq Hl Hr. rewrite !lookup_setParent.
    rewrite lookup_make_shared_lt by done.
    destruct (h !! q) as [[nd|]|]; simpl; try done.
    by rewrite !decide_False.
Qed.

(** X8.  [fork] is [createLeaf] followed by [replaceLeft] and
    [replaceRight] on the new node: the three calls return the same
    address and null pointers for the empty slots, and end in the same
    store. *)
Theorem fork_is_leaf_then_replace h v l r :
  let '(ptr, h1) := createLeaf v h in
  let '(old1, h2) := replaceLeft ptr l h1 in
  let '(old2, h3) := replaceRight ptr r h2 in
  old1 = None ∧ old2 = None ∧ fork v l r h = (ptr, h3).
Proof.
  unfold createLeaf, make_shared. rewrite fork_eq.
  set (h1 := h ++ [Live (mkTNode v None None None)]).
  rewrite (replaceLeft_eq h1).
  assert (getLeft h1 (length h) = None) as ->.
  { unfold getLeft, h1. rewrite node_at_make_shared. by rewrite decide_True. }
  cbn [setParent]. rewrite replaceRight_eq.
  assert (getRight (update (length h) (with_left l)
            (setParent l (Some (length h)) h1)) (length h) = None) as ->.
  { unfold getRight, h1.
    rewrite node_at_update, node_at_setParent, node_at_make_shared.
    rewrite (decide_True (P := length h = length h)) by done. simpl.
    by repeat case_decide. }
  cbn [setParent]. split; [done|]. split; [done|]. f_equal.
  apply list_eq. intros q.
  rewrite !lookup_update, !lookup_setParent, !lookup_update, !lookup_setParent.
  unfold h1.
  destruct (decide (q < length h)) as [Hq|Hq].
  - rewrite !lookup_make_shared_lt by done.
    destruct (h !! q) as [[[]|]|]; simpl; try done.
    rewrite !(decide_False (P := length h = q)) by lia.
    by repeat case_decide.
  - destruct (decide (q = length h)) as [->|Hne].
    + rewrite !list_lookup_middle by done. simpl.
      rewrite !(decide_True (P := length h = length h)) by done.
      repeat case_decide; done.
    + rewrite !lookup_ge_None_2; [done | rewrite length_app; simpl; lia..].
Qed.

(** X9.  Attaching a node that another node still holds: [replaceLeft]
    gives the node to the receiver and points its back-reference there,
    but the former owner keeps it in its slot; when the former owner then
    removes it, the back-reference is cleared although the receiver still
    holds the node. *)
Theorem replaceLeft_attached_elsewhere h n P c :
  is_live h n = true → is_live h c = true →
  getLeft h P = Some c → n ≠ P → getLeft h n ≠ Some c →
  let '(_, h1) := replaceLeft n (Some c) h in
  getLeft h1 n = Some c ∧ getLeft h1 P = Some c ∧
  getParent h1 c = Some n ∧
  let '(out, h2) := removeLeft P h1 in
  out = Some c ∧
  getLeft h2 n = Some c ∧ getLeft h2 P = None ∧
  getParent h2 c = None.
Proof.
  intros Hn Hc HP Hne Hown.
  apply is_live_Some in Hn as [ndn Hn]. apply is_live_Some in Hc as [ndc Hc].
  store_unfold. store_cases; done.
Qed.

End MoreMethods2.

(** * Further properties of reachable states *)

Section MoreRuns.
Context {T : Type}.
Implicit Types (s : State T) (h : list (cell T)) (nd : TNode T)
  (p q n m c : loc) (x l r w : option loc) (v : T) (cs : list (call T)).

(** X10.  No pointer ever dangles, whatever the caller does with the
    handles it holds: after every sequence of calls each handle names a
    live node, and so does every pointer that [getLeft], [getRight] or
    [getParent] returns. *)
Theorem pointers_never_dangle cs s :
  run cs init = Some s →
  (∀ p, p ∈ handles s → is_live (heap s) p = true) ∧
  (∀ n c, getLeft (heap s) n = Some c → is_live (heap s) c = true) ∧
  (∀ n c, getRight (heap s) n = Some c → is_live (heap s) c = true) ∧
  (∀ n p, getParent (heap s) n = Some p → is_live (heap s) p = true).
Proof.
  intros Hrun. destruct (run_sound cs _ _ init_sound Hrun) as [[Hh Hs] _].
  split_and!; [done | | |].
  - intros n c Hc. apply (Hs n). by left.
  - intros n c Hc. apply (Hs n). by right.
  - intros n p Hp. by eapply getParent_live.
Qed.

(** X11.  A child outlives its parent, and the back-reference expires with
    the parent: when the caller holds a node [C] whose parent [P] has its
    last strong reference in a handle, giving up that handle destroys [P]
    and leaves [C] alive with [getParent] empty. *)
Theorem parent_expires cs s P C s' :
  run cs init = Some s →
  getParent (heap s) C = Some P →
  C ∈ handles s → C ≠ P → use_count s P = 1 →
  exec (Drop P) s = Some s' →
  is_live (heap s') P = false ∧
  is_live (heap s') C = true ∧
  getParent (heap s') C = None ∧
  hasParent_spec (heap s') C = false.
Proof.
  intros Hrun Hpar HC Hne Hone Hex.
  pose proof (run_sound cs _ _ init_sound Hrun) as Hs.
  cbn [exec] in Hex. destruct (held s P) eqn:HP; [|done].
  apply held_true in HP. simplify_eq.
  destruct (drop_spec P s Hs) as ([[Hh' _] _] & Hhs & _ & Hsub).
  pose proof (drop_last s P Hs HP Hone) as Hdead.
  assert (is_live (heap (drop P s)) C = true) as Hlive.
  { apply Hh'. rewrite Hhs. by apply elem_of_remove_one. }
  split_and!; [done..| |].
  - apply is_live_Some in Hlive as [nd Hnd]. pose proof (Hsub _ _ Hnd) as Hnd0.
    unfold getParent in *. rewrite Hnd. rewrite Hnd0 in Hpar.
    unfold lock in *. destruct (parent nd) as [P'|]; [|done].
    destruct (is_live (heap s) P'); [|done]. simplify_eq. by rewrite Hdead.
  - apply is_live_Some in Hlive as [nd Hnd]. pose proof (Hsub _ _ Hnd) as Hnd0.
    unfold hasParent_spec, getParent in *. rewrite Hnd.
    rewrite Hnd0 in Hpar.
    unfold lock in *. destruct (parent nd) as [P'|]; [|done].
    destruct (is_live (heap s) P'); [|done]. simplify_eq. by rewrite Hdead.
Qed.

Lemma release_keeps_self_link n f : ∀ x s,
  holds (heap s) n n → holds (heap (release f x s)) n n.
Proof.
  induction f as [|f IH]; intros x s Hn; [done|].
  destruct x as [q|]; simpl; [|done].
  destruct (node_at (heap s) q) as [nd|]; [|done].
  case_decide as Hz; [|done].
  apply IH, IH. cbn [heap]. apply holds_free. split; [|done].
  intros ->. apply use_count_zero in Hz. apply Hz. right. by exists q.
Qed.

Lemma drop_keeps_self_link s n p :
  holds (heap s) n n → holds (heap (drop p s)) n n.
Proof. intros Hn. by apply release_keeps_self_link. Qed.

(** X12.  A node attached to itself is never destroyed: [replaceLeft] and
    [replaceRight] accept the receiver as the new child and put it into its
    own slot, and from then on no sequence of given-up handles destroys
    the node, not even the one that leaves the caller without any handle
    to it. *)
Theorem self_attachment_leaks :
  (∀ h n, is_live h n = true →
     holds (snd (replaceLeft n (Some n) h)) n n ∧
     holds (snd (replaceRight n (Some n) h)) n n) ∧
  (∀ (ps : list loc) s s' n,
     holds (heap s) n n →
     run (Drop <$> ps) s = Some s' →
     holds (heap s') n n ∧ is_live (heap s') n = true).
Proof.
  split.
  - intros h n Hn. split.
    + apply holds_replaceLeft. right. split_and!; auto.
    + apply holds_replaceRight. right. split_and!; auto.
  - induction ps as [|p ps IH]; intros s s' n Hn Hrun; simpl in Hrun.
    + simplify_eq. split; [done | by eapply holds_live].
    + destruct (held s p); [|done]. eapply IH; [|done].
      by apply drop_keeps_self_link.
Qed.

End MoreRuns.

Section MoreLifetime.
Context {T : Type}.
Implicit Types (s : State T) (h : list (cell T)) (nd : TNode T)
  (p q n m c : loc) (x l r w : option loc) (v : T) (cs : list (call T)).

Lemma sum_list_with_two {A} (f : A → nat) (l : list A) : ∀ i j a b,
  l !! i = Some a → l !! j = Some b → i ≠ j →
  f a + f b ≤ sum_list_with f l.
Proof.
  induction l as [|a0 l IH]; intros [|i] [|j] a b Hi Hj Hne;
    simpl in *; simplify_eq.
  - pose proof (sum_list_with_in b f l (list_elem_of_lookup_2 _ _ _ Hj)). lia.
  - pose proof (sum_list_with_in a f l (list_elem_of_lookup_2 _ _ _ Hi)). lia.
  - assert (i ≠ j) by congruence. specialize (IH i j a b Hi Hj). lia.
Qed.

(** Two owners, or one owner with both slots, count twice. *)
Lemma incoming_two h n m c :
  holds h n c → holds h m c → n ≠ m → 2 ≤ incoming h c.
Proof.
  rewrite !holds_node. intros (ndn & Hn & Hcn) (ndm & Hm & Hcm) Hne.
  apply node_at_Some in Hn, Hm. unfold incoming.
  pose proof (sum_list_with_two (slot_refs c) h n m _ _ Hn Hm Hne) as Hsum.
  simpl in Hsum. repeat case_decide; try lia; tauto.
Qed.

Lemma incoming_both_slots h n c :
  getLeft h n = Some c → getRight h n = Some c → 2 ≤ incoming h c.
Proof.
  unfold getLeft, getRight. destruct (node_at h n) as [nd|] eqn:Hn; [|done].
  intros Hl Hr. apply node_at_Some in Hn. unfold incoming.
  pose proof (sum_list_with_in (Live nd) (slot_refs c) h
                (list_elem_of_lookup_2 _ _ _ Hn)) as Hsum.
  simpl in Hsum. by rewrite !decide_True in Hsum.
Qed.

(** X13.  Removing a child that has no other owner and discarding the
    returned pointer destroys the child: after [removeLeft] the returned
    handle is its last strong reference, and giving that up frees it; the
    receiver stays alive with the slot empty.  [removeRight] likewise. *)
Theorem discarded_child_is_destroyed cs s n c :
  run cs init = Some s →
  use_count s c = 1 →
  (∀ s1 s2, getLeft (heap s) n = Some c →
     exec (RemoveLeft n) s = Some s1 → exec (Drop c) s1 = Some s2 →
     is_live (heap s2) c = false ∧
     is_live (heap s2) n = true ∧ getLeft (heap s2) n = None) ∧
  (∀ s1 s2, getRight (heap s) n = Some c →
     exec (RemoveRight n) s = Some s1 → exec (Drop c) s1 = Some s2 →
     is_live (heap s2) c = false ∧
     is_live (heap s2) n = true ∧ getRight (heap s2) n = None).
Proof.
  intros Hrun Hone. pose proof (run_sound cs _ _ init_sound Hrun) as Hs.
  split.
  - intros s1 s2 Hc Hex1 Hex2.
    pose proof (exec_sound _ _ _ Hs Hex1) as Hs1.
    cbn [exec] in Hex1. destruct (held s n) eqn:Hn; [|done].
    apply held_true in Hn. unfold removeLeft in Hex1.
    pose proof (replaceLeft_old (heap s) n None) as Hold.
    destruct (replaceLeft n None (heap s)) as [old h'] eqn:Hrep.
    cbn [fst] in Hold. rewrite Hc in Hold. simplify_eq.
    assert (holds (heap s) n c) as Hnc by (by left).
    assert (0 < incoming (heap s) c) as Hinc by (apply incoming_pos; eauto).
    unfold use_count in Hone.
    assert (h' = snd (replaceLeft n None (heap s))) as Hh' by (by rewrite Hrep).
    assert (incoming h' c = 0) as Hz.
    { apply incoming_zero. intros m. rewrite Hh', holds_replaceLeft.
      intros [[Hne Hm]|(-> & _ & [?|Hr])]; [|done|].
      - pose proof (incoming_two _ _ _ _ Hm Hnc Hne). lia.
      - pose proof (incoming_both_slots _ _ _ Hc Hr). lia. }
    assert (n ≠ c) as Hne.
    { intros ->. apply handle_refs_pos in Hn. lia. }
    cbn [exec] in Hex2.
    destruct (held _ c) eqn:Hheld; [|done]. apply held_true in Hheld.
    injection Hex2 as <-.
    set (s1 := mkState h' (keep (Some c) (handles s))) in *.
    destruct (drop_spec c s1 Hs1) as ([[Hh2 _] _] & Hhs & _ & Hsub).
    assert (is_live (heap (drop c s1)) n = true) as Hnlive.
    { apply Hh2. rewrite Hhs. apply elem_of_remove_one; [|done].
      cbn [s1 handles keep]. apply elem_of_cons. by right. }
    split_and!; [|done|].
    + apply drop_last; [done..|]. unfold use_count. cbn [s1 heap handles keep].
      rewrite Hz. unfold handle_refs in *. simpl.
      rewrite decide_True by done. lia.
    + apply is_live_Some in Hnlive as [nd Hnd]. pose proof (Hsub _ _ Hnd) as H0.
      cbn [s1 heap] in H0. rewrite Hh', node_at_replaceLeft in H0.
      change (getLeft (heap (drop c s1)) n = None).
      unfold getLeft. rewrite Hnd.
      destruct (node_at (heap s) n); simplify_eq/=. by rewrite decide_True.
  - intros s1 s2 Hc Hex1 Hex2.
    pose proof (exec_sound _ _ _ Hs Hex1) as Hs1.
    cbn [exec] in Hex1. destruct (held s n) eqn:Hn; [|done].
    apply held_true in Hn. unfold removeRight in Hex1.
    pose proof (replaceRight_old (heap s) n None) as Hold.
    destruct (replaceRight n None (heap s)) as [old h'] eqn:Hrep.
    cbn [fst] in Hold. rewrite Hc in Hold. simplify_eq.
    assert (holds (heap s) n c) as Hnc by (by right).
    assert (0 < incoming (heap s) c) as Hinc by (apply incoming_pos; eauto).
    unfold use_count in Hone.
    assert (h' = snd (replaceRight n None (heap s))) as Hh' by (by rewrite Hrep).
    assert (incoming h' c = 0) as Hz.
    { apply incoming_zero. intros m. rewrite Hh', holds_replaceRight.
      intros [[Hne Hm]|(-> & _ & [Hl|?])]; [| |done].
      - pose proof (incoming_two _ _ _ _ Hm Hnc Hne). lia.
      - pose proof (incoming_both_slots _ _ _ Hl Hc). lia. }
    assert (n ≠ c) as Hne.
    { intros ->. apply handle_refs_pos in Hn. lia. }
    cbn [exec] in Hex2.
    destruct (held _ c) eqn:Hheld; [|done]. apply held_true in Hheld.
    injection Hex2 as <-.
    set (s1 := mkState h' (keep (Some c) (handles s))) in *.
    destruct (drop_spec c s1 Hs1) as ([[Hh2 _] _] & Hhs & _ & Hsub).
    assert (is_live (heap (drop c s1)) n = true) as Hnlive.
    { apply Hh2. rewrite Hhs. apply elem_of_remove_one; [|done].
      cbn [s1 handles keep]. apply elem_of_cons. by right. }
    split_and!; [|done|].
    + apply drop_last; [done..|]. unfold use_count. cbn [s1 heap handles keep].
      rewrite Hz. unfold handle_refs in *. simpl.
      rewrite decide_True by done. lia.
    + apply is_live_Some in Hnlive as [nd Hnd]. pose proof (Hsub _ _ Hnd) as H0.
      cbn [s1 heap] in H0. rewrite Hh', node_at_replaceRight in H0.
      change (getRight (heap (drop c s1)) n = None).
      unfold getRight. rewrite Hnd.
      destruct (node_at (heap s) n); simplify_eq/=. by rewrite decide_True.
Qed.

End MoreLifetime.

Section MoreLeaf.
Context {T : Type}.
Implicit Types (s : State T) (h : list (cell T)) (nd : TNode T)
  (p q n m c : loc) (x l r w : option loc) (v : T) (cs : list (call T)).

(** X14.  After [replaceLeftWithLeaf] the new leaf belongs to the tree
    alone: the caller gains no handle to it (only the evicted child comes
    back), and the leaf is nevertheless alive once the temporary that
    carried it is gone, in the left slot of the receiver, with the receiver
    as its parent. *)
Theorem leaf_owned_by_slot cs s n v s' :
  run cs init = Some s →
  exec (ReplaceLeftWithLeaf n v) s = Some s' →
  handles s' = keep (getLeft (heap s) n) (handles s) ∧
  (length (heap s) ∉ handles s') ∧
  is_live (heap s') (length (heap s)) = true ∧
  getValue (heap s') (length (heap s)) = Some v ∧
  getLeft (heap s') n = Some (length (heap s)) ∧
  getParent (heap s') (length (heap s)) = Some n.
Proof.
  intros Hrun Hex. set (lf := length (heap s)). pose proof (run_sound cs _ _ init_sound Hrun) as Hs.
  pose proof Hs as [[Hh Hsl] _].
  destruct (exec_replaceLeftWithLeaf s n v s' Hs Hex)
    as (s1 & s2 & H1 & _ & H2 & H3). fold lf in H2, H3.
  pose proof (exec_sound _ _ _ Hs H1) as Hs1.
  pose proof (exec_sound _ _ _ Hs1 H2) as Hs2.
  cbn [exec] in H1. unfold createLeaf, make_shared in H1.
  injection H1 as <-. fold lf in H2.
  set (h1 := heap s ++ [Live (mkTNode v None None None)]) in *.
  cbn [exec heap handles] in H2.
  destruct (held _ n && held_opt _ (Some lf)) eqn:Hg; [|done].
  apply andb_true_iff in Hg as [Hn _]. apply held_true in Hn.
  cbn [handles] in Hn.
  assert (lf ∉ handles s) as Hlf.
  { intros Hin. apply Hh in Hin. unfold lf in Hin.
    by rewrite not_live_length in Hin. }
  assert (n ∈ handles s) as Hn0.
  { apply elem_of_cons in Hn as [->|?]; [|done].
    cbn [exec] in Hex. destruct (held s lf) eqn:E; [|done].
    by apply held_true in E. }
  assert (n ≠ lf) as Hne by (intros ->; done).
  assert (getLeft h1 n = getLeft (heap s) n) as Hgl.
  { unfold getLeft, h1. rewrite node_at_make_shared. by rewrite decide_False. }
  assert (getLeft (heap s) n ≠ Some lf) as Hold.
  { intros Hc. assert (is_live (heap s) lf = true) as Hl
      by (apply (Hsl n); by left).
    unfold lf in Hl. by rewrite not_live_length in Hl. }
  pose proof (replaceLeft_old h1 n (Some lf)) as Hfst. rewrite Hgl in Hfst.
  assert (∀ q, node_at (snd (replaceLeft n (Some lf) h1)) q = _) as Hnode
    by (intros q; apply node_at_replaceLeft).
  destruct (replaceLeft n (Some lf) h1) as [old h2]. cbn [fst snd] in *.
  subst old. injection H2 as <-.
  set (s2 := mkState h2 (keep (getLeft (heap s) n) (lf :: handles s))) in *.
  cbn [exec] in H3. destruct (held s2 lf); [|done]. injection H3 as <-.
  destruct (drop_spec lf s2 Hs2) as ([[Hh' Hsl'] _] & Hhs & _ & Hsub).
  assert (handles (drop lf s2) = keep (getLeft (heap s) n) (handles s)) as Hhs'.
  { rewrite Hhs. cbn [s2 handles].
    destruct (getLeft (heap s) n) as [o|]; cbn [keep remove_one].
    - rewrite decide_False by congruence. cbn [remove_one].
      by rewrite decide_True.
    - by rewrite decide_True. }
  assert (is_live (heap (drop lf s2)) n = true) as Hnlive.
  { apply Hh'. rewrite Hhs'. apply elem_of_keep. by right. }
  assert (getLeft (heap (drop lf s2)) n = Some lf) as Hleft.
  { pose proof Hnlive as Hl. apply is_live_Some in Hl as [nd Hnd].
    pose proof (Hsub _ _ Hnd) as H0. cbn [s2 heap] in H0.
    rewrite Hnode in H0. unfold getLeft at 1. rewrite Hnd.
    destruct (node_at h1 n); simplify_eq/=. by rewrite decide_True. }
  assert (is_live (heap (drop lf s2)) lf = true) as Hlive.
  { apply (Hsl' n). by left. }
  split_and!; try done.
  - rewrite Hhs'. rewrite elem_of_keep. intros [?|?]; done.
  - apply is_live_Some in Hlive as [nd Hnd].
    pose proof (Hsub _ _ Hnd) as H0. cbn [s2 heap] in H0.
    rewrite Hnode in H0. unfold getValue. rewrite Hnd.
    unfold h1 in H0. rewrite node_at_make_shared in H0.
    fold lf in H0. rewrite (decide_True (P := lf = lf)) in H0 by done.
    by simplify_eq/=.
  - apply is_live_Some in Hlive as [nd Hnd].
    pose proof (Hsub _ _ Hnd) as H0. cbn [s2 heap] in H0.
    rewrite Hnode in H0. unfold getParent. rewrite Hnd.
    unfold h1 in H0. rewrite node_at_make_shared in H0.
    fold lf in H0. rewrite (decide_True (P := lf = lf)) in H0 by done.
    fold h1 in H0. rewrite Hgl in H0. simplify_eq/=.
    rewrite decide_False by done. rewrite decide_True by done.
    unfold lock. by rewrite Hnlive.
Qed.

End MoreLeaf.

Section MoreDiscipline.
Context {T : Type}.
Implicit Types (s : State T) (h : list (cell T)) (nd : TNode T)
  (p q n m c : loc) (x l r w : option loc) (v : T) (cs : list (call T)).

Lemma getParent_None_unheld s c :
  sound s → linked (heap s) → incoming (heap s) c = 0 →
  getParent (heap s) c = None.
Proof.
  intros Hs Hl Hz. pose proof (linked_consistent s Hs Hl) as Hc.
  destruct (getParent (heap s) c) as [P|] eqn:HP; [|done].
  apply Hc in HP. by apply (proj1 (incoming_zero _ _) Hz) in HP.
Qed.

(** X15.  Within the attachment discipline an evicted child is detached
    again: when [replaceLeft] (or [removeLeft], its null case) returns the
    former left child, the caller holds it, no node holds it, and its
    [getParent] is empty, so it may be attached anywhere by a later call.
    [replaceRight] and [removeRight] likewise. *)
Theorem evicted_child_is_detached cs s n x c :
  run_ok cs init = Some s →
  (∀ s1, attach_ok (ReplaceLeft n x) s = true →
     getLeft (heap s) n = Some c →
     exec (ReplaceLeft n x) s = Some s1 →
     c ∈ handles s1 ∧ detached (heap s1) (Some c) = true ∧
     getParent (heap s1) c = None) ∧
  (∀ s1, attach_ok (ReplaceRight n x) s = true →
     getRight (heap s) n = Some c →
     exec (ReplaceRight n x) s = Some s1 →
     c ∈ handles s1 ∧ detached (heap s1) (Some c) = true ∧
     getParent (heap s1) c = None).
Proof.
  intros Hrun.
  destruct (run_ok_linked cs _ _ init_sound init_linked Hrun) as [Hs Hl].
  pose proof (linked_consistent s Hs Hl) as Hcons.
  pose proof Hl as (_ & L2 & _).
  split.
  - intros s1 Hok Hc Hex.
    pose proof (exec_sound _ _ _ Hs Hex) as Hs1.
    pose proof (exec_linked _ _ _ Hs Hl Hok Hex) as Hl1.
    cbn [attach_ok] in Hok. apply detached_unheld in Hok.
    cbn [exec] in Hex. destruct (held s n && held_opt s x); [|done].
    pose proof (replaceLeft_old (heap s) n x) as Hold.
    assert (∀ m, holds (snd (replaceLeft n x (heap s))) m c ↔ _) as Hholds
      by (intros m; apply holds_replaceLeft).
    destruct (replaceLeft n x (heap s)) as [old h']. cbn [fst snd] in *.
    rewrite Hc in Hold. subst old. injection Hex as <-.
    assert (holds (heap s) n c) as Hnc by (by left).
    assert (incoming h' c = 0) as Hz.
    { apply incoming_zero. intros m Hm. apply Hholds in Hm.
      destruct Hm as [[Hne Hm]|(-> & _ & [ -> | Hr ])].
      - apply Hcons in Hm, Hnc. congruence.
      - apply holds_node in Hnc as (nd & Hnd & _).
        destruct (Hok c n nd eq_refl Hnd) as [Hnl _].
        unfold getLeft in Hc. rewrite Hnd in Hc. done.
      - unfold getLeft, getRight in *.
        destruct (node_at (heap s) n) as [nd|] eqn:Hnd; [|done].
        by apply (L2 n nd c Hnd). }
    split_and!.
    + cbn [handles keep]. apply elem_of_cons. by left.
    + cbn [detached heap]. by apply bool_decide_eq_true.
    + by apply getParent_None_unheld.
  - intros s1 Hok Hc Hex.
    pose proof (exec_sound _ _ _ Hs Hex) as Hs1.
    pose proof (exec_linked _ _ _ Hs Hl Hok Hex) as Hl1.
    cbn [attach_ok] in Hok. apply detached_unheld in Hok.
    cbn [exec] in Hex. destruct (held s n && held_opt s x); [|done].
    pose proof (replaceRight_old (heap s) n x) as Hold.
    assert (∀ m, holds (snd (replaceRight n x (heap s))) m c ↔ _) as Hholds
      by (intros m; apply holds_replaceRight).
    destruct (replaceRight n x (heap s)) as [old h']. cbn [fst snd] in *.
    rewrite Hc in Hold. subst old. injection Hex as <-.
    assert (holds (heap s) n c) as Hnc by (by right).
    assert (incoming h' c = 0) as Hz.
    { apply incoming_zero. intros m Hm. apply Hholds in Hm.
      destruct Hm as [[Hne Hm]|(-> & _ & [ Hlft | -> ])].
      - apply Hcons in Hm, Hnc. congruence.
      - unfold getLeft, getRight in *.
        destruct (node_at (heap s) n) as [nd|] eqn:Hnd; [|done].
        by apply (L2 n nd c Hnd).
      - apply holds_node in Hnc as (nd & Hnd & _).
        destruct (Hok c n nd eq_refl Hnd) as [_ Hnr].
        unfold getRight in Hc. rewrite Hnd in Hc. done. }
    split_and!.
    + cbn [handles keep]. apply elem_of_cons. by left.
    + cbn [detached heap]. by apply bool_decide_eq_true.
    + by apply getParent_None_unheld.
Qed.

End MoreDiscipline.

(** * Further concrete instances *)

Section MoreInstances.

Lemma replaceLeftWithLeaf_installs_witness :
  is_live sample_store 2 = true ∧
  (∀ c, getLeft sample_store 2 = Some c → is_live sample_store c = true) ∧
  (let '(old, h') := replaceLeftWithLeaf 2 9%Z sample_store in
   old = Some 0 ∧ getLeft h' 2 = Some 4 ∧ getValue h' 4 = Some 9%Z ∧
   getParent h' 4 = Some 2 ∧ getRight h' 2 = Some 1).
Proof.
  assert (∀ c, getLeft sample_store 2 = Some c →
               is_live sample_store c = true) as Hs.
  { intros c [= <-]. reflexivity. }
  pose proof (replaceLeftWithLeaf_installs sample_store 2 9%Z eq_refl Hs) as H.
  split; [reflexivity|]. split; [exact Hs|].
  destruct (replaceLeftWithLeaf 2 9%Z sample_store) as [old h'].
  destruct H as (H1 & _ & H3 & _ & H5 & _ & _ & H8 & H9 & _).
  split_and!; [exact H1 | exact H3 | exact H5 | exact H8 | exact H9].
Defined.

Lemma replaceRightWithLeaf_installs_witness :
  is_live sample_store 2 = true ∧
  (∀ c, getRight sample_store 2 = Some c → is_live sample_store c = true) ∧
  (let '(old, h') := replaceRightWithLeaf 2 9%Z sample_store in
   old = Some 1 ∧ getRight h' 2 = Some 4 ∧ getValue h' 4 = Some 9%Z ∧
   getParent h' 4 = Some 2 ∧ getLeft h' 2 = Some 0).
Proof.
  assert (∀ c, getRight sample_store 2 = Some c →
               is_live sample_store c = true) as Hs.
  { intros c [= <-]. reflexivity. }
  pose proof (replaceRightWithLeaf_installs sample_store 2 9%Z eq_refl Hs) as H.
  split; [reflexivity|]. split; [exact Hs|].
  destruct (replaceRightWithLeaf 2 9%Z sample_store) as [old h'].
  destruct H as (H1 & _ & H3 & _ & H5 & _ & _ & H8 & H9 & _).
  split_and!; [exact H1 | exact H3 | exact H5 | exact H8 | exact H9].
Defined.

Lemma replaceRight_round_trip_witness :
  getRight sample_store 2 = Some 1 ∧
  is_live sample_store 3 = true ∧
  (let '(old, h1) := replaceRight 2 (Some 3) sample_store in
   let '(back, h2) := replaceRight 2 old h1 in
   old = Some 1 ∧ back = Some 3 ∧ getRight h2 2 = old ∧
   getLeft h2 2 = getLeft sample_store 2 ∧
   is_live h2 3 = true ∧ getParent h2 3 = None).
Proof.
  split; [reflexivity|]. split; [reflexivity|].
  exact (replaceRight_round_trip sample_store 2 1 3 eq_refl eq_refl).
Defined.

Lemma replaceRight_own_child_witness :
  getRight sample_store 2 = Some 1 ∧
  is_live sample_store 1 = true ∧
  (let '(ret, h') := replaceRight 2 (Some 1) sample_store in
   ret = Some 1 ∧ getRight h' 2 = Some 1 ∧ is_live h' 1 = true ∧
   getParent h' 1 = None).
Proof.
  split; [reflexivity|]. split; [reflexivity|].
  exact (replaceRight_own_child sample_store 2 1 eq_refl eq_refl).
Defined.

Lemma remove_empty_slot_witness :
  getLeft sample_store 3 = None ∧
  removeLeft 3 sample_store = (None, sample_store) ∧
  getRight sample_store 3 = None ∧
  removeRight 3 sample_store = (None, sample_store).
Proof.
  pose proof (remove_empty_slot sample_store 3) as (H1 & H2 & _).
  split_and!; [reflexivity | exact (H1 eq_refl) | reflexivity
              | exact (H2 eq_refl)].
Defined.

Lemma replace_frame_witness :
  1 ≠ 2 ∧ Some 3 ≠ Some 1 ∧ getLeft sample_store 2 ≠ Some 1 ∧
  snd (replaceLeft 2 (Some 3) sample_store) !! 1 = sample_store !! 1 ∧
  getLeft (snd (replaceLeft 2 (Some 3) sample_store)) 1
  = getLeft sample_store 1.
Proof.
  pose proof (proj1 (replace_frame sample_store 2 (Some 3)))
    as (_ & _ & _ & _ & H5 & H6).
  assert (1 ≠ 2) as Ha by lia.
  assert (Some 3 ≠ Some 1) as Hb by congruence.
  assert (getLeft sample_store 2 ≠ Some 1) as Hc by (intros [=]).
  split_and!; [exact Ha | exact Hb | exact Hc | exact (H6 1 Ha Hb Hc)
              | exact (H5 1 Ha)].
Defined.

Lemma fork_frame_witness :
  0 < length sample_store ∧ Some 3 ≠ Some 0 ∧ @None nat ≠ Some 0 ∧
  snd (fork 9%Z (Some 3) None sample_store) !! 0 = sample_store !! 0 ∧
  getValue (snd (fork 9%Z (Some 3) None sample_store)) 3 = Some 7%Z.
Proof.
  pose proof (fork_frame sample_store 9%Z (Some 3) None) as H.
  destruct (fork 9%Z (Some 3) None sample_store) as [ptr h'].
  destruct H as (_ & _ & H3 & H4).
  assert (0 < length sample_store) as Ha by (simpl; lia).
  assert (3 < length sample_store) as Ha3 by (simpl; lia).
  assert (Some 3 ≠ Some 0) as Hb by congruence.
  assert (@None nat ≠ Some 0) as Hc by congruence.
  split_and!; [exact Ha | exact Hb | exact Hc | exact (H4 0 Ha Hb Hc) |].
  exact (proj1 (proj2 (H3 3 Ha3))).
Defined.

Lemma replaceLeft_attached_elsewhere_witness :
  is_live sample_store 3 = true ∧ is_live sample_store 0 = true ∧
  getLeft sample_store 2 = Some 0 ∧ 3 ≠ 2 ∧
  getLeft sample_store 3 ≠ Some 0 ∧
  (let '(_, h1) := replaceLeft 3 (Some 0) sample_store in
   getLeft h1 3 = Some 0 ∧ getLeft h1 2 = Some 0 ∧
   getParent h1 0 = Some 3 ∧
   let '(out, h2) := removeLeft 2 h1 in
   out = Some 0 ∧ getLeft h2 3 = Some 0 ∧ getLeft h2 2 = None ∧
   getParent h2 0 = None).
Proof.
  assert (3 ≠ 2) as Ha by lia.
  assert (getLeft sample_store 3 ≠ Some 0) as Hb by (intros [=]).
  split_and!; [reflexivity | reflexivity | reflexivity | exact Ha | exact Hb |].
  exact (replaceLeft_attached_elsewhere sample_store 3 2 0
           eq_refl eq_refl eq_refl Ha Hb).
Defined.

Lemma pointers_never_dangle_witness :
  run shared_leaf_calls init = Some shared_leaf_state ∧
  (∀ p, p ∈ handles shared_leaf_state →
        is_live (heap shared_leaf_state) p = true) ∧
  (∀ n p, getParent (heap shared_leaf_state) n = Some p →
          is_live (heap shared_leaf_state) p = true).
Proof.
  pose proof (pointers_never_dangle shared_leaf_calls shared_leaf_state
                eq_refl) as (H1 & _ & _ & H4).
  split_and!; [reflexivity | exact H1 | exact H4].
Defined.

Lemma drop_shared_handle_witness :
  0 ∈ handles drop_root_state ∧ 1 < use_count drop_root_state 0 ∧
  drop 0 drop_root_state
  = mkState (heap drop_root_state) (remove_one 0 (handles drop_root_state)).
Proof.
  assert (0 ∈ handles drop_root_state) as Ha.
  { apply elem_of_cons. right. apply elem_of_cons. by left. }
  assert (1 < use_count drop_root_state 0) as Hb by (vm_compute; lia).
  split_and!; [exact Ha | exact Hb |].
  exact (drop_shared_handle drop_root_state 0 Ha Hb).
Defined.

Lemma parent_expires_witness :
  run drop_root_calls init = Some drop_root_state ∧
  getParent (heap drop_root_state) 0 = Some 2 ∧
  0 ∈ handles drop_root_state ∧ 0 ≠ 2 ∧
  use_count drop_root_state 2 = 1 ∧
  exec (Drop 2) drop_root_state = Some (drop 2 drop_root_state) ∧
  is_live (heap (drop 2 drop_root_state)) 2 = false ∧
  is_live (heap (drop 2 drop_root_state)) 0 = true ∧
  getParent (heap (drop 2 drop_root_state)) 0 = None ∧
  hasParent_spec (heap (drop 2 drop_root_state)) 0 = false.
Proof.
  assert (0 ∈ handles drop_root_state) as Ha.
  { apply elem_of_cons. right. apply elem_of_cons. by left. }
  assert (0 ≠ 2) as Hb by lia.
  pose proof (parent_expires drop_root_calls drop_root_state 2 0
                (drop 2 drop_root_state) eq_refl eq_refl Ha Hb eq_refl eq_refl)
    as (H1 & H2 & H3 & H4).
  split_and!;
    [ reflexivity | reflexivity | exact Ha | exact Hb | reflexivity
    | reflexivity | exact H1 | exact H2 | exact H3 | exact H4 ].
Defined.

Lemma self_attachment_leaks_witness :
  is_live sample_store 3 = true ∧
  holds (snd (replaceLeft 3 (Some 3) sample_store)) 3 3 ∧
  run self_link_calls init = Some self_link_state ∧
  holds (heap self_link_state) 0 0 ∧
  run (Drop <$> [0]) self_link_state
  = Some (drop 0 self_link_state) ∧
  handles (drop 0 self_link_state) = [] ∧
  is_live (heap (drop 0 self_link_state)) 0 = true.
Proof.
  pose proof (@self_attachment_leaks Z) as (H1 & H2).
  assert (holds (heap self_link_state) 0 0) as Hh by (left; reflexivity).
  split_and!;
    [ reflexivity | exact (proj1 (H1 sample_store 3 eq_refl)) | reflexivity
    | exact Hh | reflexivity | reflexivity
    | exact (proj2 (H2 [0] self_link_state (drop 0 self_link_state) 0
                      Hh eq_refl)) ].
Defined.

Lemma discarded_child_is_destroyed_witness :
  run drop_root_calls init = Some drop_root_state ∧
  use_count drop_root_state 1 = 1 ∧
  getRight (heap drop_root_state) 2 = Some 1 ∧
  (let s1 := default init (exec (RemoveRight 2) drop_root_state) in
   let s2 := default init (exec (Drop 1) s1) in
   exec (RemoveRight 2) drop_root_state = Some s1 ∧
   exec (Drop 1) s1 = Some s2 ∧
   is_live (heap s2) 1 = false ∧ is_live (heap s2) 2 = true ∧
   getRight (heap s2) 2 = None).
Proof.
  pose proof (proj2 (discarded_child_is_destroyed drop_root_calls
                       drop_root_state 2 1 eq_refl eq_refl)) as H.
  split_and!; [reflexivity | reflexivity | reflexivity |].
  cbv zeta. split; [reflexivity|]. split; [reflexivity|].
  exact (H _ _ eq_refl eq_refl eq_refl).
Defined.

Lemma leaf_owned_by_slot_witness :
  run drop_root_calls init = Some drop_root_state ∧
  (let s' := default init (exec (ReplaceLeftWithLeaf 2 9%Z) drop_root_state) in
   exec (ReplaceLeftWithLeaf 2 9%Z) drop_root_state = Some s' ∧
   handles s' = [0; 2; 0] ∧
   is_live (heap s') 3 = true ∧
   getLeft (heap s') 2 = Some 3 ∧
   getParent (heap s') 3 = Some 2).
Proof.
  split; [reflexivity|]. cbv zeta.
  pose proof (leaf_owned_by_slot drop_root_calls drop_root_state 2 9%Z _
                eq_refl eq_refl) as (H1 & _ & H3 & _ & H5 & H6).
  split_and!; [reflexivity | exact H1 | exact H3 | exact H5 | exact H6].
Defined.

Lemma evicted_child_is_detached_witness :
  run_ok drop_root_calls init = Some drop_root_state ∧
  attach_ok (ReplaceLeft 2 None) drop_root_state = true ∧
  getLeft (heap drop_root_state) 2 = Some 0 ∧
  (let s1 := default init (exec (ReplaceLeft 2 None) drop_root_state) in
   exec (ReplaceLeft 2 None) drop_root_state = Some s1 ∧
   0 ∈ handles s1 ∧ detached (heap s1) (Some 0) = true ∧
   getParent (heap s1) 0 = None).
Proof.
  pose proof (proj1 (evicted_child_is_detached drop_root_calls
                       drop_root_state 2 None 0 eq_refl)) as H.
  split_and!; [reflexivity | reflexivity | reflexivity |].
  cbv zeta. split; [reflexivity|].
  exact (H _ eq_refl eq_refl eq_refl).
Defined.

End MoreInstances.
